(** * Logistic_Regression: the model class of [main.py], embedded and verified

    The Python class [Logistic_regression] is embedded method by method.
    Python objects are mutable and methods print, plot, draw random
    numbers and raise: every method is a computation in a small state
    and exception monad over a [world] that holds the instance ([self]),
    the emitted output and the position in the random stream.

    numpy's float64 arithmetic is kept abstract behind the interface
    [Float64]: the theorems hold for every interpretation of the
    operations, the real numbers ([R_Float64]) being the one used for
    concrete runs. *)

From Stdlib Require Import String ZArith List Bool Lia QArith Reals Lra Qreals.
From Stdlib Require Import Sorted.
Import ListNotations.
Local Open Scope Z_scope.

(** ** Numbers *)

(** The float64 operations the program uses.  [of_Z] is the conversion
    numpy and Python apply to an integer operand that meets a float,
    [flit] a decimal literal of the source text ([0.01], [0.5]). *)
Class Float64 (F : Type) := {
  of_Z : Z -> F;
  flit : Q -> F;
  fadd : F -> F -> F;
  fsub : F -> F -> F;
  fmul : F -> F -> F;
  fdiv : F -> F -> F;
  fneg : F -> F;
  fexp : F -> F;
  flog : F -> F;
  fltb : F -> F -> bool;
  fgtb : F -> F -> bool
}.

(** ** Exceptions, output and the monad *)

Inductive exn :=
| TypeError
| ValueError
| IndexError
| ZeroDivisionError.

Inductive outcome (A : Type) :=
| Ok (a : A)
| Raise (e : exn)
| OutOfFuel.
Arguments Ok {A} a.
Arguments Raise {A} e.
Arguments OutOfFuel {A}.

Section Program.

Context {F : Type} {FF : Float64 F}.

(** What [print] and [matplotlib.pyplot] receive.  An f-string keeps the
    number it interpolates next to its literal text. *)
Inductive plot_style :=
| Label (text : string) (v : F)
| Fmt (s : string)
| Plain.

Inductive event :=
| Print (s : string)
| PrintF (pre : string) (v : F) (post : string)
| PrintZ (pre : string) (v : Z) (post : string)
| PltPlot (xs ys : list F) (style : plot_style)
| PltLegend (loc : string)
| PltYlabel (s : string)
| PltXlabel (s : string)
| PltShow.

(** The fields of an instance, as [__init__] declares them. *)
Record model := Model {
  D : option nat;
  trained : bool;
  max_iter : Z;
  a : F;
  w : option (list F);
  N : option nat;
  error_diff : F;
  show : bool
}.

(** [np.random] is a global stream of normal deviates: [rng] is the
    stream, [rng_pos] how many were drawn so far. *)
Record world := World {
  self : model;
  out : list event;
  rng : nat -> F;
  rng_pos : nat
}.

Definition M (A : Type) : Type := world -> outcome A * world.

Definition ret {A} (x : A) : M A := fun s => (Ok x, s).

Definition bind {A B} (c : M A) (k : A -> M B) : M B :=
  fun s =>
    match c s with
    | (Ok x, s') => k x s'
    | (Raise e, s') => (Raise e, s')
    | (OutOfFuel, s') => (OutOfFuel, s')
    end.

Definition raise {A} (e : exn) : M A := fun s => (Raise e, s).

Definition diverge {A} : M A := fun s => (OutOfFuel, s).

Definition get_self : M model := fun s => (Ok (self s), s).

Definition put_self (m : model) : M unit :=
  fun s => (Ok tt, World m (out s) (rng s) (rng_pos s)).

Definition emit (e : event) : M unit :=
  fun s => (Ok tt, World (self s) (out s ++ [e]) (rng s) (rng_pos s)).

(** [np.random.randn(k)]: the next [k] deviates of the stream. *)
Definition randn (k : nat) : M (list F) :=
  fun s => (Ok (map (rng s) (seq (rng_pos s) k)),
            World (self s) (out s) (rng s) (rng_pos s + k)%nat).

Definition lift {A} (r : exn + A) : M A :=
  match r with
  | inr x => ret x
  | inl e => raise e
  end.

Notation "x <- c ;; k" := (bind c (fun x => k))
  (at level 61, c at next level, right associativity).
Notation "c ;; k" := (bind c (fun _ => k))
  (at level 61, right associativity).

(** ** Arrays *)

(** A 2-d array: [shape = (length rows, ncols)].  The width is a field
    because an array without rows still has one. *)
Record matrix := Matrix {
  ncols : nat;
  rows : list (list F)
}.

Definition nrows (X : matrix) : nat := length (rows X).

Definition wf_matrix (X : matrix) : bool :=
  forallb (fun r => Nat.eqb (length r) (ncols X)) (rows X).

(** [a.dot(b)] on two 1-d arrays: the lengths must agree. *)
Definition vsum (l : list F) : F := fold_left fadd l (of_Z 0).

Definition vdot (u v : list F) : exn + F :=
  if Nat.eqb (length u) (length v)
  then inr (vsum (map (fun p => fmul (fst p) (snd p)) (combine u v)))
  else inl ValueError.

(** [X.dot(v)], [X] 2-d and [v] 1-d: the width of [X] must be the length
    of [v], also when [X] has no rows. *)
Definition row_dot (v r : list F) : F :=
  vsum (map (fun p => fmul (fst p) (snd p)) (combine r v)).

Definition dot (X : matrix) (v : list F) : exn + list F :=
  if Nat.eqb (ncols X) (length v)
  then inr (map (row_dot v) (rows X))
  else inl ValueError.

(** [X.T.dot(v)]: entry [j] sums column [j] of [X] against [v]; the row
    count of [X] must be the length of [v]. *)
Definition column (j : nat) (X : matrix) : list F :=
  map (fun r => nth j r (of_Z 0)) (rows X).

Definition dot_T (X : matrix) (v : list F) : exn + list F :=
  if Nat.eqb (nrows X) (length v)
  then inr (map (fun j => row_dot v (column j X)) (seq 0 (ncols X)))
  else inl ValueError.

(** Element-wise arithmetic [u op v] of two 1-d arrays, with numpy's
    broadcasting of an array of length one. *)
Definition broadcast (f : F -> F -> F) (u v : list F) : exn + list F :=
  if Nat.eqb (length u) (length v)
  then inr (map (fun p => f (fst p) (snd p)) (combine u v))
  else match u, v with
       | [x], _ => inr (map (f x) v)
       | _, [y] => inr (map (fun x => f x y) u)
       | _, _ => inl ValueError
       end.

(** In-place [u += v]: only [v] may be broadcast, [u] keeps its shape. *)
Definition iadd (u v : list F) : exn + list F :=
  if Nat.eqb (length u) (length v)
  then inr (map (fun p => fadd (fst p) (snd p)) (combine u v))
  else match v with
       | [y] => inr (map (fun x => fadd x y) u)
       | _ => inl ValueError
       end.

(** [ones = np.array([[1] * n]).T; np.concatenate((ones, X), axis=1)]
    with [n = X.shape[0]]. *)
Definition augment (X : matrix) : matrix :=
  Matrix (S (ncols X)) (map (fun r => of_Z 1 :: r) (rows X)).

(** [np.linspace(start, stop, num)] for [num > 1] and [start <> stop]:
    numpy computes [arange(num) * step + start] with
    [step = (stop - start) / (num - 1)] and then stores [stop] itself in
    the last cell. *)
Definition linspace (start stop : F) (num : nat) : list F :=
  let step := fdiv (fsub stop start) (of_Z (Z.of_nat (num - 1))) in
  map (fun i => fadd (fmul (of_Z (Z.of_nat i)) step) start) (seq 0 (num - 1))
  ++ [stop].

(** ** The class *)

(** [__init__(self, max_iter=1000, a=0.01, error_diff=1e-7, show=False)] *)
Definition init (max_iter : Z) (a error_diff : F) (show : bool) : model :=
  Model None false max_iter a None None error_diff show.

Definition init_default : model :=
  init 1000 (flit (1 # 100)) (flit (1 # 10000000)) false.

(** [sigmoid(z)], element-wise on an array. *)
Definition sigmoid1 (z : F) : F :=
  fdiv (of_Z 1) (fadd (of_Z 1) (fexp (fneg z))).

Definition sigmoid (z : list F) : list F := map sigmoid1 z.

(** [cross_entropy(T, y_pred)]; [T] is the integer label array. *)
Definition cross_entropy (T : list Z) (y_pred : list F) : exn + F :=
  match vdot (map of_Z T) (map flog y_pred) with
  | inl e => inl e
  | inr d1 =>
    match vdot (map (fun t => of_Z (1 - t)) T)
               (map (fun y => flog (fsub (of_Z 1) y)) y_pred) with
    | inl e => inl e
    | inr d2 => inr (fsub (fneg d1) d2)
    end
  end.

(** [confusion_matrix(T, Y_prob, values)]: the loop over
    [range(len(T))], one sample per step.  [Y_prob[i]] raises when
    [Y_prob] is the shorter one. *)
Record counts := Counts { TP : Z; FP : Z; TN : Z; FN : Z }.

Definition cm_step (t : Z) (y : Z) (c : counts) : counts :=
  if t =? 0 then
    if y =? 0 then Counts (TP c + 1) (FP c) (TN c) (FN c)
    else Counts (TP c) (FP c) (TN c) (FN c + 1)
  else
    if y =? 1 then Counts (TP c) (FP c) (TN c + 1) (FN c)
    else Counts (TP c) (FP c + 1) (TN c) (FN c).

Fixpoint cm_loop (T Y_prob : list Z) (idx : list nat) (c : counts)
  : exn + counts :=
  match idx with
  | [] => inr c
  | i :: idx' =>
    match nth_error T i, nth_error Y_prob i with
    | Some t, Some y => cm_loop T Y_prob idx' (cm_step t y c)
    | _, _ => inl IndexError
    end
  end.

Inductive cm_result :=
| CMValues (tp fp fn tn : Z)
| CMArray (m : list (list Z)).

Definition confusion_matrix (T Y_prob : list Z) (values : bool)
  : exn + cm_result :=
  match cm_loop T Y_prob (seq 0 (length T)) (Counts 0 0 0 0) with
  | inl e => inl e
  | inr c =>
    if values then inr (CMValues (TP c) (FP c) (FN c) (TN c))
    else inr (CMArray [[TP c; FN c]; [FP c; TN c]])
  end.

(** *** [fit] *)

(** The local variables the [while] loop of [fit] updates. *)
Record lstate := LState {
  cur_w : list F;
  y_prob : list F;
  e : F;
  e_prev : F;
  iterations : Z
}.

Definition when (b : bool) (c : M unit) : M unit :=
  if b then c else ret tt.

(** One pass through the body of the loop (lines 66 to 81). *)
Definition fit_body (X : matrix) (Y : list Z) (st : lstate) : M lstate :=
  m <- get_self ;;
  d <- lift (broadcast fsub (map of_Z Y) (y_prob st)) ;;
  g <- lift (dot_T X d) ;;
  let w_change := map (fmul (a m)) g in
  w' <- lift (iadd (cur_w st) w_change) ;;
  z <- lift (dot X w') ;;
  let y_prob' := sigmoid z in
  e_new <- lift (cross_entropy Y y_prob') ;;
  when ((iterations st mod 20 =? 0) && show m)
       (emit (PrintF "Cross entropy is " e_new ".") ;;
        emit (PrintZ "Iteration : " (iterations st) ".\n")) ;;
  ret (LState w' y_prob' (fsub (e_prev st) e_new) e_new (iterations st + 1)).

(** [while iterations < self.max_iter and e > self.error_diff: body].
    [fuel] bounds the number of passes; running out of it is the
    outcome [OutOfFuel], never a result. *)
Definition loop_cond (m : model) (st : lstate) : bool :=
  (iterations st <? max_iter m) && fgtb (e st) (error_diff m).

Fixpoint fit_loop (fuel : nat) (X : matrix) (Y : list Z) (st : lstate)
  : M lstate :=
  m <- get_self ;;
  if loop_cond m st then
    match fuel with
    | O => diverge
    | S fuel' => st' <- fit_body X Y st ;; fit_loop fuel' X Y st'
    end
  else ret st.

Definition set_shape (n d : nat) (m : model) : model :=
  Model (Some d) (trained m) (max_iter m) (a m) (w m) (Some n)
        (error_diff m) (show m).

Definition set_trained (wv : list F) (m : model) : model :=
  Model (D m) true (max_iter m) (a m) (Some wv) (N m)
        (error_diff m) (show m).

(** [fit(self, X, Y)]; [fuel] is handed to the loop. *)
Definition fit (fuel : nat) (X : matrix) (Y : list Z) : M unit :=
  m <- get_self ;;
  put_self (set_shape (nrows X) (ncols X) m) ;;
  let X := augment X in
  r <- randn (ncols X) ;;
  let w0 := map (fmul (flit (1 # 100))) r in
  z <- lift (dot X w0) ;;
  let y_prob0 := sigmoid z in
  e_prev0 <- lift (cross_entropy Y y_prob0) ;;
  m <- get_self ;;
  when (show m)
       (emit (Print "Starting fitting process!") ;;
        emit (PrintF "Cross entropy is " e_prev0 ".\n")) ;;
  st <- fit_loop fuel X Y (LState w0 y_prob0 (of_Z 1) e_prev0 1) ;;
  m <- get_self ;;
  (if show m && fltb (e st) (error_diff m)
   then emit (Print "Cross entropy difference reached threshold.")
   else when (iterations st <? max_iter m)
             (emit (Print "Gradient decent reached max iterations."))) ;;
  m <- get_self ;;
  put_self (set_trained (cur_w st) m).

(** *** Inference *)

Definition get_coef : M (option (list F)) :=
  m <- get_self ;;
  if trained m then ret (w m)
  else emit (Print "Model not trained.") ;; ret None.

(** [self.sigmoid(X.dot(self.w))].  While [self.w] is [None] the product
    is numpy's element-wise [X * None]: it raises on the first entry of
    [X], and is an empty array when [X] has no entry. *)
Definition y_probab (X : matrix) : M (list F) :=
  m <- get_self ;;
  match w m with
  | Some wv => z <- lift (dot X wv) ;; ret (sigmoid z)
  | None => if Nat.eqb (nrows X * ncols X) 0 then ret [] else raise TypeError
  end.

Definition threshold (p : F) (i : F) : Z := if fltb i p then 0 else 1.

Definition predict (X : matrix) (p : F) : M (option (list Z)) :=
  m <- get_self ;;
  if trained m then
    let X := augment X in
    pr <- y_probab X ;;
    ret (Some (map (threshold p) pr))
  else emit (Print "Model not trained.") ;; ret None.

(** *** [ROC] *)

(** [x / y] on two Python integers. *)
Definition int_div (x y : Z) : M F :=
  if y =? 0 then raise ZeroDivisionError
  else ret (fdiv (of_Z x) (of_Z y)).

(** [self.confusion_matrix(T, y_predict, values=True)] where [y_predict]
    is what [predict] returned: subscripting [None] raises. *)
Definition confusion_of (T : list Z) (y_predict : option (list Z))
  : exn + cm_result :=
  match y_predict with
  | Some ys => confusion_matrix T ys true
  | None => match T with
            | [] => confusion_matrix T [] true
            | _ :: _ => inl TypeError
            end
  end.

(** One pass of the threshold loop (lines 149 to 154); the tuple
    assignment needs four values. *)
Definition ROC_step (X : matrix) (T : list Z) (p : F)
  (acc : list F * list F) : M (list F * list F) :=
  y_predict <- predict X p ;;
  c <- lift (confusion_of T y_predict) ;;
  match c with
  | CMValues tp fp fn tn =>
    r <- int_div tp (tp + fn) ;;
    q <- int_div tn (tn + fp) ;;
    ret (fst acc ++ [r], snd acc ++ [fsub (of_Z 1) q])
  | CMArray _ => raise ValueError
  end.

Fixpoint ROC_sweep (X : matrix) (T : list Z) (ps : list F)
  (acc : list F * list F) : M (list F * list F) :=
  match ps with
  | [] => ret acc
  | p :: ps' => acc' <- ROC_step X T p acc ;; ROC_sweep X T ps' acc'
  end.

(** The loop of lines 158 to 160 over [range(len(recall) - 1)]. *)
Fixpoint auc_loop (recall specif_minus : list F) (idx : list nat) (auc : F)
  : exn + F :=
  match idx with
  | [] => inr auc
  | i :: idx' =>
    match nth_error recall i, nth_error recall (i + 1),
          nth_error specif_minus (i + 1), nth_error specif_minus i with
    | Some r0, Some r1, Some x1, Some x0 =>
      auc_loop recall specif_minus idx'
        (fadd auc (fmul (fmul (fadd r0 r1) (fsub x1 x0)) (flit (1 # 2))))
    | _, _, _, _ => inl IndexError
    end
  end.

Definition divisions : nat := 100.

(** [ROC] has no [return]: the call evaluates to [None], and the curve
    and its area go to [matplotlib]. *)
Definition ROC (X : matrix) (T : list Z)
  : M (option (list (F * F) * F)) :=
  acc <- ROC_sweep X T (linspace (of_Z 0) (of_Z 1) divisions) ([], []) ;;
  let recall := fst acc in
  let specif_minus := snd acc in
  auc <- lift (auc_loop recall specif_minus
                        (seq 0 (length recall - 1)) (of_Z 0)) ;;
  emit (PltPlot specif_minus recall (Label "ROC curve - AUC: " auc)) ;;
  emit (PltPlot [of_Z 0; of_Z 1] [of_Z 0; of_Z 1] (Fmt "--")) ;;
  emit (PltLegend "lower right") ;;
  emit (PltYlabel "sensitivity") ;;
  emit (PltXlabel "1 - specificity") ;;
  emit PltShow ;;
  ret None.

End Program.

Arguments plot_style F : clear implicits.
Arguments event F : clear implicits.
Arguments model F : clear implicits.
Arguments world F : clear implicits.
Arguments M F A : clear implicits.
Arguments matrix F : clear implicits.
Arguments lstate F : clear implicits.

(** ** The real numbers as an interpretation *)

(** Exact arithmetic: nothing is rounded, overflows or saturates, so
    here [sigmoid] never reaches 0 or 1 and [log] never meets 0, as
    they can in float64.  The instance serves the concrete runs and the
    statements that say they are over the reals. *)

Definition Rltb (x y : R) : bool := if Rlt_dec x y then true else false.

#[export] Instance R_Float64 : Float64 R := {
  of_Z := IZR;
  flit := Q2R;
  fadd := Rplus;
  fsub := Rminus;
  fmul := Rmult;
  fdiv := Rdiv;
  fneg := Ropp;
  fexp := exp;
  flog := ln;
  fltb := Rltb;
  fgtb := fun x y => Rltb y x
}.

(** ** Sample instances and data, over the reals *)

(** A new instance with the default parameters, no output yet, and a
    random source that only yields 0. *)
Definition fresh_world : world R :=
  World init_default [] (fun _ => 0%R) 0.

(** The same, with [max_iter=1]. *)
Definition capped_world : world R :=
  World (init 1 (flit (1 # 100)) (flit (1 # 10000000)) false)
        [] (fun _ => 0%R) 0.

(** An instance trained on one feature, with weights [[0, 0]]. *)
Definition trained_world : world R :=
  World (Model (Some 1%nat) true 1000 (flit (1 # 100)) (Some [0%R; 0%R])
               (Some 2%nat) (flit (1 # 10000000)) false)
        [] (fun _ => 0%R) 2.

Definition X2 : matrix R := Matrix 1 [[0%R]; [0%R]].
Definition T2 : list Z := [0; 1].

Definition X1 : matrix R := Matrix 1 [[1%R]].

(** A loop state for [X2] and [T2]: weights [[0, 0]], both
    probabilities one half, [e = 1], [iterations = 1]. *)
Definition pass_state : lstate R :=
  LState [0%R; 0%R] [(1 / 2)%R; (1 / 2)%R] 1%R 0%R 1.

(** One row of two features, one more than [trained_world] has. *)
Definition X_wide : matrix R := Matrix 2 [[1%R; 2%R]].

Definition X5 : matrix R := Matrix 1 [[1%R]; [2%R]; [3%R]; [4%R]; [5%R]].
Definition Y4 : list Z := [0; 1; 0; 1].

(** ** Reference definitions for the statements *)

(** The number of samples [i] with [f T[i] Y[i]]. *)
Definition count_if (f : Z -> Z -> bool) (T Y : list Z) : Z :=
  Z.of_nat (length (filter (fun p => f (fst p) (snd p)) (combine T Y))).

(** The samples with true label [t] and predicted label [y]. *)
Definition bucket (t y : Z) (T Y : list Z) : Z :=
  count_if (fun t' y' => (t' =? t) && (y' =? y)) T Y.

Definition binary (l : list Z) : bool :=
  forallb (fun z => (z =? 0) || (z =? 1)) l.

(** The four counts of the code, for labels of any value: the [else]
    branches take every value that is not the one tested. *)
Definition TP_of (T Y : list Z) : Z :=
  count_if (fun t y => (t =? 0) && (y =? 0)) T Y.
Definition FN_of (T Y : list Z) : Z :=
  count_if (fun t y => (t =? 0) && negb (y =? 0)) T Y.
Definition TN_of (T Y : list Z) : Z :=
  count_if (fun t y => negb (t =? 0) && (y =? 1)) T Y.
Definition FP_of (T Y : list Z) : Z :=
  count_if (fun t y => negb (t =? 0) && negb (y =? 1)) T Y.

(** The counters after the samples [ps], taken in order. *)
Definition cm_fold (ps : list (Z * Z)) (c : counts) : counts :=
  fold_left (fun c p => cm_step (fst p) (snd p) c) ps c.

Definition total (c : counts) : Z := TP c + FP c + FN c + TN c.

Section Reference.

Context {F : Type} {FF : Float64 F}.

(** [f 0 + f 1 + ... + f (n - 1)], added left to right from zero. *)
Fixpoint big_sum (f : nat -> F) (n : nat) : F :=
  match n with
  | O => of_Z 0
  | S n' => fadd (big_sum f n') (f n')
  end.

(** [X[i][j]], [v[i]] and [Y[i]] by index. *)
Definition entry (X : matrix F) (i j : nat) : F :=
  nth j (nth i (rows X) []) (of_Z 0).

Definition at_ (v : list F) (i : nat) : F := nth i v (of_Z 0).

Definition label (Y : list Z) (i : nat) : F := of_Z (nth i Y 0).

(** Entry [i] of [X_aug]: the intercept 1 in column 0, then [X]. *)
Definition aug_entry (X : matrix F) (i j : nat) : F :=
  match j with
  | O => of_Z 1
  | S j' => entry X i j'
  end.

(** [sigmoid(X_aug[i] . wv)] *)
Definition probability (X : matrix F) (wv : list F) (i : nat) : F :=
  sigmoid1 (big_sum (fun j => fmul (aug_entry X i j) (at_ wv j))
                    (S (ncols X))).

(** Entry [j] of [X_aug^T . (Y - y_prob)], a sum over the [n] samples
    that is not divided by [n]. *)
Definition gradient (X : matrix F) (Y : list Z) (yp : list F) (j : nat) : F :=
  big_sum (fun i => fmul (aug_entry X i j) (fsub (label Y i) (at_ yp i)))
          (nrows X).

(** The loop state has the shapes [fit] works with. *)
Definition shaped (X : matrix F) (st : lstate F) : Prop :=
  length (cur_w st) = S (ncols X) /\ length (y_prob st) = nrows X.

(** The arrays one pass of the loop of [fit] computes from the state
    [st]: the new weights, and the probabilities of given weights. *)
Definition next_w (m : model F) (X : matrix F) (Y : list Z) (st : lstate F)
  : list F :=
  map (fun j => fadd (at_ (cur_w st) j)
                     (fmul (a m) (gradient X Y (y_prob st) j)))
      (seq 0 (S (ncols X))).

Definition probabilities (X : matrix F) (wv : list F) : list F :=
  map (probability X wv) (seq 0 (nrows X)).

Definition next_state (m : model F) (X : matrix F) (Y : list Z)
  (st : lstate F) (e_new : F) : lstate F :=
  let w' := next_w m X Y st in
  LState w' (probabilities X w') (fsub (e_prev st) e_new) e_new
         (iterations st + 1).

Definition body_events (m : model F) (st : lstate F) (e_new : F)
  : list (event F) :=
  if (iterations st mod 20 =? 0) && show m
  then [PrintF "Cross entropy is " e_new ".";
        PrintZ "Iteration : " (iterations st) ".\n"]
  else [].

(** [passes m X Y st st']: the loop goes from [st] to [st'] in a number
    of passes, each one entered with the loop condition true. *)
Inductive passes (m : model F) (X : matrix F) (Y : list Z)
  : lstate F -> lstate F -> Prop :=
| passes_done st : passes m X Y st st
| passes_step st e_new st' :
    loop_cond m st = true ->
    cross_entropy Y (probabilities X (next_w m X Y st)) = inr e_new ->
    passes m X Y (next_state m X Y st e_new) st' ->
    passes m X Y st st'.

(** The point of the curve at threshold [p]: the labels [predict]
    gives for [X] under the weights [wv], counted against [T]. *)
Definition labels_at (X : matrix F) (wv : list F) (p : F) : list Z :=
  map (threshold p) (probabilities X wv).

Definition recall_at (X : matrix F) (wv : list F) (T : list Z) (p : F) : F :=
  let ys := labels_at X wv p in
  fdiv (of_Z (TP_of T ys)) (of_Z (TP_of T ys + FN_of T ys)).

Definition specif_minus_at (X : matrix F) (wv : list F) (T : list Z) (p : F)
  : F :=
  let ys := labels_at X wv p in
  fsub (of_Z 1) (fdiv (of_Z (TN_of T ys)) (of_Z (TN_of T ys + FP_of T ys))).

(** The trapezoidal rule over the consecutive points of [pts], in the
    order of the list: [(y0 + y1) * (x1 - x0) * 0.5] for each pair. *)
Fixpoint trapezoid (pts : list (F * F)) (acc : F) : F :=
  match pts with
  | (x0, y0) :: (((x1, y1) :: _) as rest) =>
    trapezoid rest
      (fadd acc (fmul (fmul (fadd y0 y1) (fsub x1 x0)) (flit (1 # 2))))
  | _ => acc
  end.

(** What [ROC] hands to [matplotlib]. *)
Definition roc_events (xs ys : list F) (auc : F) : list (event F) :=
  [PltPlot xs ys (Label "ROC curve - AUC: " auc);
   PltPlot [of_Z 0; of_Z 1] [of_Z 0; of_Z 1] (Fmt "--");
   PltLegend "lower right";
   PltYlabel "sensitivity";
   PltXlabel "1 - specificity";
   PltShow].

(** The state [fit] enters its loop with: the weights drawn from the
    random stream, their probabilities, [e = 1], the first loss [e0] and
    [iterations = 1]. *)
Definition initial_w (s : world F) (X : matrix F) : list F :=
  map (fmul (flit (1 # 100)))
      (map (rng s) (seq (rng_pos s) (S (ncols X)))).

Definition initial_state (s : world F) (X : matrix F) (e0 : F) : lstate F :=
  LState (initial_w s X) (probabilities X (initial_w s X)) (of_Z 1) e0 1.

(** [fit] from its first message on: [w0], [yp] and [e0] are the
    weights, probabilities and loss computed before. *)
Definition fit_rest (fuel : nat) (X : matrix F) (Y : list Z) (w0 yp : list F)
  (e0 : F) : M F unit :=
  bind get_self (fun m =>
  bind (when (show m)
         (bind (emit (Print "Starting fitting process!")) (fun _ =>
          emit (PrintF "Cross entropy is " e0 ".\n")))) (fun _ =>
  bind (fit_loop fuel (augment X) Y (LState w0 yp (of_Z 1) e0 1)) (fun st =>
  bind get_self (fun m =>
  bind (if show m && fltb (e st) (error_diff m)
        then emit (Print "Cross entropy difference reached threshold.")
        else when (iterations st <? max_iter m)
               (emit (Print "Gradient decent reached max iterations.")))
       (fun _ =>
  bind get_self (fun m => put_self (set_trained (cur_w st) m))))))).

(** A computation that leaves the instance as it found it. *)
Definition keeps_self {A} (c : M F A) : Prop :=
  forall s, self (snd (c s)) = self s.

(** The messages of [fit] before and after its loop. *)
Definition start_events (m : model F) (e0 : F) : list (event F) :=
  if show m
  then [Print "Starting fitting process!";
        PrintF "Cross entropy is " e0 ".\n"]
  else [].

Definition end_events (m : model F) (st : lstate F) : list (event F) :=
  if show m && fltb (e st) (error_diff m)
  then [Print "Cross entropy difference reached threshold."]
  else if iterations st <? max_iter m
       then [Print "Gradient decent reached max iterations."]
       else [].

End Reference.

(** ** The metrics report *)

(** [y == 0.0], the test Python makes before it divides by a float. *)
Class FloatEq (F : Type) := {
  feqb : F -> F -> bool
}.

Section Metrics.

Context {F : Type} {FF : Float64 F} {FE : FloatEq F}.

(** [x / y] on a Python integer and a float. *)
Definition float_div (x : Z) (y : F) : M F F :=
  if feqb y (of_Z 0) then raise ZeroDivisionError
  else ret (fdiv (of_Z x) y).

(** The dictionary [metrics] returns: an entry per class and the
    accuracy. *)
Record class_report := ClassReport {
  recall : F;
  precision : F;
  F1 : F
}.

Record report := Report {
  class_1 : class_report;
  class_2 : class_report;
  accuracy : F
}.

(** [metrics(T, Y)]: the dictionary display evaluates its nine
    quotients from left to right. *)
Definition metrics (T Y : list Z) : M F report :=
  bind (lift (confusion_matrix T Y true)) (fun c =>
  match c with
  | CMValues tp fp fn tn =>
    bind (int_div tp (tp + fn)) (fun r1 =>
    bind (int_div tp (tp + fp)) (fun p1 =>
    bind (float_div tp (fadd (of_Z tp)
                             (fmul (flit (1 # 2)) (of_Z (fp + fn))))) (fun f1 =>
    bind (int_div tn (tn + fp)) (fun r2 =>
    bind (int_div tn (tn + fn)) (fun p2 =>
    bind (float_div tn (fadd (of_Z tn)
                             (fmul (flit (1 # 2)) (of_Z (fn + fp))))) (fun f2 =>
    bind (int_div (tn + tp) (tn + tp + fn + fp)) (fun acc =>
    ret (Report (ClassReport r1 p1 f1) (ClassReport r2 p2 f2) acc))))))))
  | CMArray _ => raise ValueError
  end).

(** Two instances with the same optimizer parameters. *)
Definition same_config (m1 m2 : model F) : Prop :=
  max_iter m1 = max_iter m2
  /\ a m1 = a m2
  /\ error_diff m1 = error_diff m2.

(** The message [fit] prints after its loop when [show] is off. *)
Definition quiet_events (m : model F) (st : lstate F) : list (event F) :=
  if iterations st <? max_iter m
  then [Print "Gradient decent reached max iterations."]
  else [].

End Metrics.

Arguments class_report F : clear implicits.
Arguments report F : clear implicits.

(** How many true labels are 0, and how many are not. *)
Definition positives (T : list Z) : Z :=
  Z.of_nat (length (filter (fun t => t =? 0) T)).

Definition negatives (T : list Z) : Z :=
  Z.of_nat (length (filter (fun t => negb (t =? 0)) T)).

Definition Reqb (x y : R) : bool := if Req_dec_T x y then true else false.

#[export] Instance R_FloatEq : FloatEq R := {
  feqb := Reqb
}.

(** ** The confusion matrix *)

Section ConfusionMatrix.

Lemma cm_loop_seq (T2 : list Z) :
  forall (Y2 T1 Y1 : list Z) (c : counts),
    length T1 = length Y1 ->
    (length T2 <= length Y2)%nat ->
    cm_loop (T1 ++ T2) (Y1 ++ Y2) (seq (length T1) (length T2)) c
    = inr (cm_fold (combine T2 Y2) c).
Proof.
  induction T2 as [| t T2 IH]; intros Y2 T1 Y1 c HL HY.
  - reflexivity.
  - destruct Y2 as [| y Y2]; [simpl in HY; lia |].
    cbn [length seq cm_loop].
    rewrite nth_error_app2 by lia. rewrite Nat.sub_diag. cbn [nth_error].
    rewrite (nth_error_app2 Y1) by lia. rewrite HL, Nat.sub_diag.
    cbn [nth_error]. rewrite <- HL.
    specialize (IH Y2 (T1 ++ [t]) (Y1 ++ [y]) (cm_step t y c)).
    rewrite <- !app_assoc in IH. cbn [app] in IH.
    rewrite !length_app in IH. cbn [length] in IH.
    replace (length T1 + 1)%nat with (S (length T1)) in IH by lia.
    rewrite IH; [reflexivity | lia | simpl in HY; lia].
Qed.

Lemma cm_loop_run (T Y : list Z) :
  (length T <= length Y)%nat ->
  cm_loop T Y (seq 0 (length T)) (Counts 0 0 0 0)
  = inr (cm_fold (combine T Y) (Counts 0 0 0 0)).
Proof.
  intros H. exact (cm_loop_seq T Y [] [] (Counts 0 0 0 0) eq_refl H).
Qed.

(** What the four counters hold after the loop, for any label values:
    the [else] branches take every value that is not the one tested. *)
Lemma cm_fold_counts (ps : list (Z * Z)) :
  forall c,
    let n f := Z.of_nat (length (filter (fun p => f (fst p) (snd p)) ps)) in
    cm_fold ps c
    = Counts (TP c + n (fun t y => (t =? 0) && (y =? 0)))
             (FP c + n (fun t y => negb (t =? 0) && negb (y =? 1)))
             (TN c + n (fun t y => negb (t =? 0) && (y =? 1)))
             (FN c + n (fun t y => (t =? 0) && negb (y =? 0))).
Proof.
  induction ps as [| [t y] ps IH]; intros c n; subst n.
  - simpl. destruct c; simpl. f_equal; lia.
  - cbn [cm_fold fold_left fst snd]. fold (cm_fold ps (cm_step t y c)).
    rewrite IH. unfold cm_step. cbn [filter fst snd].
    destruct (t =? 0), (y =? 0) eqn:E0, (y =? 1) eqn:E1;
      cbn [negb andb length TP FP TN FN]; f_equal; lia.
Qed.

Lemma filter_ext_in_length {A} (f g : A -> bool) (l : list A) :
  (forall x, In x l -> f x = g x) ->
  length (filter f l) = length (filter g l).
Proof.
  intros H. rewrite (filter_ext_in _ _ _ H). reflexivity.
Qed.

Lemma binary_In (l : list Z) (z : Z) :
  binary l = true -> In z l -> z = 0 \/ z = 1.
Proof.
  unfold binary. rewrite forallb_forall. intros H HI.
  specialize (H z HI). lia.
Qed.

Lemma cm_step_total (t y : Z) (c : counts) :
  total (cm_step t y c) = total c + 1.
Proof.
  unfold cm_step, total.
  destruct (t =? 0), (y =? 0), (y =? 1); simpl; lia.
Qed.

Lemma cm_fold_total (ps : list (Z * Z)) :
  forall c, total (cm_fold ps c) = total c + Z.of_nat (length ps).
Proof.
  induction ps as [| p ps IH]; intros c.
  - simpl. lia.
  - cbn [cm_fold fold_left]. fold (cm_fold ps (cm_step (fst p) (snd p) c)).
    rewrite IH, cm_step_total. cbn [length]. lia.
Qed.

(** C1: on binary vectors of one length every sample falls in the bucket
    the label-0-is-positive convention gives it: TP counts
    [T[i] = 0, Y_pred[i] = 0], FN counts [T[i] = 0, Y_pred[i] = 1], TN
    counts [T[i] = 1, Y_pred[i] = 1] and FP counts
    [T[i] = 1, Y_pred[i] = 0], in both return forms; for
    [T = [0,0,1,1]] and [Y_pred = [0,1,1,0]] all four counts are 1. *)
Theorem confusion_matrix_buckets (T Y_pred : list Z) :
  length T = length Y_pred ->
  binary T = true ->
  binary Y_pred = true ->
  let tp := bucket 0 0 T Y_pred in
  let fn := bucket 0 1 T Y_pred in
  let tn := bucket 1 1 T Y_pred in
  let fp := bucket 1 0 T Y_pred in
  confusion_matrix T Y_pred true = inr (CMValues tp fp fn tn)
  /\ confusion_matrix T Y_pred false = inr (CMArray [[tp; fn]; [fp; tn]])
  /\ confusion_matrix [0; 0; 1; 1] [0; 1; 1; 0] true
     = inr (CMValues 1 1 1 1).
Proof.
  intros HL HT HY tp fn tn fp.
  assert (HC : cm_fold (combine T Y_pred) (Counts 0 0 0 0)
               = Counts tp fp tn fn).
  { rewrite cm_fold_counts. cbn [TP FP TN FN].
    subst tp fp tn fn. unfold bucket, count_if.
    f_equal; rewrite Z.add_0_l; f_equal; apply filter_ext_in_length;
      intros [t y] HI; cbn [fst snd];
      pose proof (binary_In T t HT (in_combine_l _ _ _ _ HI));
      pose proof (binary_In Y_pred y HY (in_combine_r _ _ _ _ HI));
      repeat match goal with H : _ \/ _ |- _ => destruct H end;
      subst; reflexivity. }
  unfold confusion_matrix.
  rewrite cm_loop_run by lia. rewrite HC. cbn [TP FP TN FN].
  repeat split.
Qed.

Lemma confusion_matrix_buckets_witness :
  confusion_matrix [0; 1; 1] [1; 1; 0] true = inr (CMValues 0 1 1 1).
Proof.
  exact (proj1 (confusion_matrix_buckets [0; 1; 1] [1; 1; 0]
                  eq_refl eq_refl eq_refl)).
Defined.

(** C9: for vectors of one length, whatever their entries, the four
    counts are returned and add up to the number of samples:
    [TP + FP + FN + TN = len(T)]. *)
Theorem confusion_matrix_partition (T Y_pred : list Z) :
  length T = length Y_pred ->
  exists tp fp fn tn,
    confusion_matrix T Y_pred true = inr (CMValues tp fp fn tn)
    /\ confusion_matrix T Y_pred false = inr (CMArray [[tp; fn]; [fp; tn]])
    /\ tp + fp + fn + tn = Z.of_nat (length T).
Proof.
  intros HL. unfold confusion_matrix.
  rewrite cm_loop_run by lia.
  set (c := cm_fold (combine T Y_pred) (Counts 0 0 0 0)).
  exists (TP c), (FP c), (FN c), (TN c). repeat split.
  pose proof (cm_fold_total (combine T Y_pred) (Counts 0 0 0 0)) as H.
  fold c in H. unfold total in H. cbn [TP FP TN FN] in H.
  rewrite length_combine, <- HL, Nat.min_id in H. lia.
Qed.

Lemma confusion_matrix_partition_witness :
  exists tp fp fn tn,
    confusion_matrix [5; 0; -3] [7; 2; 1] true = inr (CMValues tp fp fn tn)
    /\ confusion_matrix [5; 0; -3] [7; 2; 1] false
       = inr (CMArray [[tp; fn]; [fp; tn]])
    /\ tp + fp + fn + tn = 3.
Proof.
  exact (confusion_matrix_partition [5; 0; -3] [7; 2; 1] eq_refl).
Defined.

End ConfusionMatrix.

(** ** Running the monad, and sums by index *)

Section Run.

Context {F : Type} {FF : Float64 F}.

Lemma bind_Ok {A B} (c : M F A) (k : A -> M F B) (s s' : world F) (x : A) :
  c s = (Ok x, s') -> bind c k s = k x s'.
Proof. intros H. unfold bind. rewrite H. reflexivity. Qed.

Lemma bind_Raise {A B} (c : M F A) (k : A -> M F B) (s s' : world F) (x : exn) :
  c s = (Raise x, s') -> bind c k s = (Raise x, s').
Proof. intros H. unfold bind. rewrite H. reflexivity. Qed.

Lemma big_sum_ext (f g : nat -> F) (n : nat) :
  (forall i, (i < n)%nat -> f i = g i) -> big_sum f n = big_sum g n.
Proof.
  induction n as [| n IH]; intros H; [reflexivity |].
  cbn [big_sum]. rewrite IH, (H n) by (intros; auto with arith).
  reflexivity.
Qed.

Lemma fold_left_fadd_big_sum (f : nat -> F) (n : nat) :
  fold_left fadd (map f (seq 0 n)) (of_Z 0) = big_sum f n.
Proof.
  induction n as [| n IH]; [reflexivity |].
  rewrite seq_S, map_app, fold_left_app, IH. reflexivity.
Qed.

Lemma map_combine_seq {A B C} (f : A * B -> C) (da : A) (db : B) :
  forall (u : list A) (v : list B),
    length u = length v ->
    map f (combine u v)
    = map (fun i => f (nth i u da, nth i v db)) (seq 0 (length u)).
Proof.
  induction u as [| x u IH]; intros v H; [reflexivity |].
  destruct v as [| y v]; [discriminate |].
  cbn [combine map length seq]. f_equal.
  rewrite <- seq_shift, map_map. apply IH. simpl in H. lia.
Qed.

(** The dot product of the code is the indexed sum. *)
Lemma row_dot_big_sum (v r : list F) :
  length r = length v ->
  row_dot v r = big_sum (fun j => fmul (at_ r j) (at_ v j)) (length v).
Proof.
  intros H. unfold row_dot, vsum.
  rewrite (map_combine_seq _ (of_Z 0) (of_Z 0) r v H), H.
  apply fold_left_fadd_big_sum.
Qed.

End Run.

(** ** The array operations, entry by entry *)

Section Arrays.

Context {F : Type} {FF : Float64 F}.

Lemma Nat_eqb_same {n m : nat} : n = m -> Nat.eqb n m = true.
Proof. intros ->. apply Nat.eqb_refl. Qed.

Lemma at_map_seq (f : nat -> F) (n i : nat) :
  (i < n)%nat -> at_ (map f (seq 0 n)) i = f i.
Proof.
  intros H. unfold at_.
  rewrite (nth_indep _ (of_Z 0) (f 0%nat)) by (rewrite length_map, length_seq; exact H).
  rewrite (map_nth f (seq 0 n) 0%nat i), seq_nth by exact H. reflexivity.
Qed.

Lemma at_map (f : F -> F) (v : list F) (i : nat) :
  (i < length v)%nat -> at_ (map f v) i = f (at_ v i).
Proof.
  intros H. unfold at_.
  rewrite (nth_indep _ (of_Z 0) (f (of_Z 0))) by (rewrite length_map; exact H).
  apply map_nth.
Qed.

Lemma label_map (Y : list Z) (i : nat) :
  (i < length Y)%nat -> at_ (map of_Z Y) i = label Y i.
Proof.
  intros H. unfold at_, label. apply (map_nth of_Z).
Qed.

Lemma list_map_seq {A} (d : A) (l : list A) :
  l = map (fun i => nth i l d) (seq 0 (length l)).
Proof.
  apply (nth_ext _ _ d d).
  - rewrite length_map, length_seq. reflexivity.
  - intros n Hn.
    rewrite (nth_indep (map _ _) d (nth 0 l d))
      by (rewrite length_map, length_seq; exact Hn).
    rewrite (map_nth (fun i => nth i l d) (seq 0 (length l)) 0%nat n).
    rewrite seq_nth by exact Hn. reflexivity.
Qed.

Lemma broadcast_same (f : F -> F -> F) (u v : list F) :
  length u = length v ->
  broadcast f u v
  = inr (map (fun i => f (at_ u i) (at_ v i)) (seq 0 (length u))).
Proof.
  intros H. unfold broadcast. rewrite (Nat_eqb_same H).
  rewrite (map_combine_seq _ (of_Z 0) (of_Z 0) u v H). reflexivity.
Qed.

Lemma iadd_same (u v : list F) :
  length u = length v ->
  iadd u v = inr (map (fun i => fadd (at_ u i) (at_ v i)) (seq 0 (length u))).
Proof.
  intros H. unfold iadd. rewrite (Nat_eqb_same H).
  rewrite (map_combine_seq _ (of_Z 0) (of_Z 0) u v H). reflexivity.
Qed.

Lemma at_column (X : matrix F) (i j : nat) :
  at_ (column j X) i = entry X i j.
Proof.
  unfold at_, column, entry.
  destruct (Nat.lt_ge_cases i (length (rows X))) as [H | H].
  - rewrite (nth_indep _ (of_Z 0) (nth j [] (of_Z 0)))
      by (rewrite length_map; exact H).
    apply (map_nth (fun r => nth j r (of_Z 0))).
  - rewrite (nth_overflow (map _ _)) by (rewrite length_map; exact H).
    rewrite (nth_overflow (rows X)) by exact H.
    destruct j; reflexivity.
Qed.

Lemma entry_augment (X : matrix F) (i j : nat) :
  (i < nrows X)%nat -> entry (augment X) i j = aug_entry X i j.
Proof.
  intros H. unfold entry, augment, aug_entry. cbn [rows].
  rewrite (nth_indep _ [] (of_Z 1 :: [])) by (rewrite length_map; exact H).
  rewrite (map_nth (fun r => of_Z 1 :: r)).
  destruct j; reflexivity.
Qed.

Lemma nrows_augment (X : matrix F) : nrows (augment X) = nrows X.
Proof. unfold nrows, augment. cbn [rows]. apply length_map. Qed.

Lemma wf_row (X : matrix F) (i : nat) :
  wf_matrix X = true -> (i < nrows X)%nat ->
  length (nth i (rows X) []) = ncols X.
Proof.
  unfold wf_matrix. rewrite forallb_forall. intros H Hi.
  apply Nat.eqb_eq, H, nth_In, Hi.
Qed.

(** [X_aug^T . v], entry by entry. *)
Lemma dot_T_augment (X : matrix F) (v : list F) :
  nrows X = length v ->
  dot_T (augment X) v
  = inr (map (fun j => big_sum (fun i => fmul (aug_entry X i j) (at_ v i))
                               (nrows X))
             (seq 0 (S (ncols X)))).
Proof.
  intros H. unfold dot_T. rewrite nrows_augment, (Nat_eqb_same H).
  f_equal. apply map_ext. intros j.
  rewrite row_dot_big_sum
    by (unfold column; rewrite length_map; fold (nrows (augment X));
        rewrite nrows_augment; exact H).
  rewrite <- H. apply big_sum_ext. intros i Hi.
  rewrite at_column, entry_augment by exact Hi. reflexivity.
Qed.

(** [sigmoid(X_aug . wv)], entry by entry. *)
Lemma dot_augment (X : matrix F) (wv : list F) :
  wf_matrix X = true ->
  length wv = S (ncols X) ->
  dot (augment X) wv
  = inr (map (fun i => big_sum (fun j => fmul (aug_entry X i j) (at_ wv j))
                               (S (ncols X)))
             (seq 0 (nrows X))).
Proof.
  intros HW H. unfold dot. cbn [augment ncols].
  rewrite (Nat_eqb_same (eq_sym H)). f_equal.
  rewrite <- (nrows_augment X).
  unfold nrows.
  rewrite (list_map_seq [] (rows (augment X))) at 1.
  rewrite map_map. apply map_ext_in. intros i Hi. apply in_seq in Hi.
  fold (nrows (augment X)) in Hi. rewrite nrows_augment in Hi.
  rewrite row_dot_big_sum.
  - rewrite H. apply big_sum_ext. intros j Hj.
    change (at_ (nth i (rows (augment X)) []) j) with (entry (augment X) i j).
    rewrite entry_augment by lia. reflexivity.
  - cbn [augment rows].
    rewrite (nth_indep _ [] (of_Z 1 :: [])) by (rewrite length_map; fold (nrows X); lia).
    rewrite (map_nth (fun r => of_Z 1 :: r)). cbn [length].
    rewrite wf_row by (auto; lia). lia.
Qed.

End Arrays.

(** ** One pass of the loop of [fit] *)

Section Fit.

Context {F : Type} {FF : Float64 F}.

Lemma cross_entropy_returns (T : list Z) (y : list F) :
  length y = length T -> exists v, cross_entropy T y = inr v.
Proof.
  intros H. unfold cross_entropy, vdot.
  rewrite !length_map, (Nat_eqb_same (eq_sym H)). eauto.
Qed.

Lemma cross_entropy_raises (T : list Z) (y : list F) :
  length y <> length T -> cross_entropy T y = inl ValueError.
Proof.
  intros H. unfold cross_entropy, vdot. rewrite !length_map.
  destruct (Nat.eqb_spec (length T) (length y)); [congruence | reflexivity].
Qed.

Lemma length_next_w (m : model F) (X : matrix F) (Y : list Z) (st : lstate F) :
  length (next_w m X Y st) = S (ncols X).
Proof. unfold next_w. rewrite length_map, length_seq. reflexivity. Qed.

Lemma length_probabilities (X : matrix F) (wv : list F) :
  length (probabilities X wv) = nrows X.
Proof. unfold probabilities. rewrite length_map, length_seq. reflexivity. Qed.

Lemma sigmoid_dot_augment (X : matrix F) (wv : list F) :
  wf_matrix X = true ->
  length wv = S (ncols X) ->
  dot (augment X) wv = inr (map (fun i =>
      big_sum (fun j => fmul (aug_entry X i j) (at_ wv j)) (S (ncols X)))
    (seq 0 (nrows X)))
  /\ sigmoid (map (fun i =>
      big_sum (fun j => fmul (aug_entry X i j) (at_ wv j)) (S (ncols X)))
    (seq 0 (nrows X))) = probabilities X wv.
Proof.
  intros HW H. split; [apply dot_augment; assumption |].
  unfold sigmoid, probabilities, probability. rewrite map_map. reflexivity.
Qed.

(** The weights after one pass, as the code computes them. *)
Lemma update_next_w (m : model F) (X : matrix F) (Y : list Z) (st : lstate F) :
  length Y = nrows X ->
  shaped X st ->
  exists d g,
    broadcast fsub (map of_Z Y) (y_prob st) = inr d
    /\ dot_T (augment X) d = inr g
    /\ iadd (cur_w st) (map (fmul (a m)) g) = inr (next_w m X Y st).
Proof.
  intros HY [HW HP].
  eexists. eexists. split; [| split].
  - apply broadcast_same. rewrite length_map. congruence.
  - apply dot_T_augment. rewrite length_map, length_seq, length_map. congruence.
  - rewrite iadd_same
      by (rewrite !length_map, length_seq; exact HW).
    rewrite HW. unfold next_w. f_equal. apply map_ext_in. intros j Hj.
    apply in_seq in Hj. f_equal.
    rewrite at_map by (rewrite length_map, length_seq; lia).
    rewrite at_map_seq by lia. f_equal.
    unfold gradient. apply big_sum_ext. intros i Hi. f_equal.
    rewrite length_map, at_map_seq by lia.
    rewrite label_map by lia. reflexivity.
Qed.

Lemma fit_body_run (X : matrix F) (Y : list Z) (st : lstate F) (s : world F) :
  wf_matrix X = true ->
  length Y = nrows X ->
  shaped X st ->
  exists e_new,
    cross_entropy Y (probabilities X (next_w (self s) X Y st)) = inr e_new
    /\ fit_body (augment X) Y st s
       = (Ok (next_state (self s) X Y st e_new),
          World (self s) (out s ++ body_events (self s) st e_new)
                (rng s) (rng_pos s)).
Proof.
  intros HW HY HS.
  destruct (update_next_w (self s) X Y st HY HS) as (d & g & Hd & Hg & Hw).
  destruct (sigmoid_dot_augment X (next_w (self s) X Y st) HW
              (length_next_w _ _ _ _)) as [Hz Hp].
  destruct (cross_entropy_returns Y (probabilities X (next_w (self s) X Y st)))
    as [e_new He]; [rewrite length_probabilities; congruence |].
  exists e_new. split; [exact He |].
  unfold fit_body, bind, get_self. rewrite Hd. cbn [lift ret raise].
  rewrite Hg. cbn [lift ret raise]. rewrite Hw. cbn [lift ret raise].
  rewrite Hz. cbn [lift ret raise]. rewrite Hp, He. cbn [lift ret raise].
  unfold body_events, when, next_state.
  destruct ((iterations st mod 20 =? 0) && show (self s)).
  - unfold emit. cbn. rewrite <- app_assoc. reflexivity.
  - cbn. rewrite app_nil_r. destruct s; reflexivity.
Qed.

Lemma shaped_next_state (m : model F) (X : matrix F) (Y : list Z)
  (st : lstate F) (e_new : F) :
  shaped X (next_state m X Y st e_new).
Proof.
  split; cbn; [apply length_next_w | apply length_probabilities].
Qed.

End Fit.

(** ** The loop of [fit] *)

Section Loop.

Context {F : Type} {FF : Float64 F}.

Lemma fit_loop_unfold (fuel : nat) (X : matrix F) (Y : list Z)
  (st : lstate F) (s : world F) :
  fit_loop fuel X Y st s
  = if loop_cond (self s) st then
      match fuel with
      | O => (OutOfFuel, s)
      | S fuel' => bind (fit_body X Y st) (fit_loop fuel' X Y) s
      end
    else (Ok st, s).
Proof.
  destruct fuel; cbn [fit_loop]; unfold bind at 1, get_self;
    destruct (loop_cond (self s) st); reflexivity.
Qed.

Lemma world_eta (s : world F) :
  World (self s) (out s ++ []) (rng s) (rng_pos s) = s.
Proof. destruct s. cbn. rewrite app_nil_r. reflexivity. Qed.

Lemma loop_cond_bound (m : model F) (st : lstate F) :
  loop_cond m st = true -> iterations st < max_iter m.
Proof. unfold loop_cond. intros H. apply andb_prop in H. lia. Qed.

(** On inputs of agreeing shapes the loop returns as soon as it has
    [max_iter - iterations] passes at its disposal, in a state that
    fails the loop condition. *)
Lemma fit_loop_run (X : matrix F) (Y : list Z) :
  wf_matrix X = true ->
  length Y = nrows X ->
  forall (fuel : nat) (st : lstate F) (s : world F),
    shaped X st ->
    (Z.to_nat (max_iter (self s) - iterations st) <= fuel)%nat ->
    exists st' evs,
      fit_loop fuel (augment X) Y st s
      = (Ok st', World (self s) (out s ++ evs) (rng s) (rng_pos s))
      /\ passes (self s) X Y st st'
      /\ loop_cond (self s) st' = false
      /\ shaped X st'.
Proof.
  intros HW HY. induction fuel as [| fuel IH]; intros st s HS HF;
    rewrite fit_loop_unfold; destruct (loop_cond (self s) st) eqn:HC.
  - apply loop_cond_bound in HC. lia.
  - exists st, []. rewrite world_eta. repeat split; auto using passes_done.
    + apply HS.
    + apply HS.
  - destruct (fit_body_run X Y st s HW HY HS) as (e_new & He & Hb).
    rewrite (bind_Ok _ _ _ _ _ Hb).
    pose proof (loop_cond_bound _ _ HC) as HB.
    edestruct (IH (next_state (self s) X Y st e_new)
                 (World (self s) (out s ++ body_events (self s) st e_new)
                        (rng s) (rng_pos s)))
      as (st' & evs & HL & HP & HE & HS').
    + apply shaped_next_state.
    + cbn. lia.
    + cbn [self out rng rng_pos] in HL, HP, HE.
      exists st', (body_events (self s) st e_new ++ evs).
      rewrite app_assoc. repeat split; auto.
      * eapply passes_step; eauto.
      * apply HS'.
      * apply HS'.
  - exists st, []. rewrite world_eta. repeat split; auto using passes_done.
    + apply HS.
    + apply HS.
Qed.




End Loop.

(** ** A whole call of [fit] *)

Section FitRun.

Context {F : Type} {FF : Float64 F}.

(** [fit] up to its loop: the shape fields are stored, the weights are
    drawn, and the first loss is computed, or its dot product raises. *)
Lemma fit_prefix (fuel : nat) (X : matrix F) (Y : list Z) (s : world F) :
  let s2 := World (set_shape (nrows X) (ncols X) (self s)) (out s) (rng s)
                  (rng_pos s + S (ncols X)) in
  let yp := sigmoid (map (row_dot (initial_w s X)) (rows (augment X))) in
  fit fuel X Y s
  = match cross_entropy Y yp with
    | inl x => (Raise x, s2)
    | inr e0 => fit_rest fuel X Y (initial_w s X) yp e0 s2
    end.
Proof.
  intros s2 yp. unfold fit, bind at 1, get_self at 1.
  unfold bind at 1, put_self at 1. unfold bind at 1, randn.
  cbn [self out rng rng_pos].
  change (ncols (augment X)) with (S (ncols X)).
  fold (initial_w s X).
  unfold bind at 1, dot.
  change (ncols (augment X)) with (S (ncols X)).
  assert (HL : Nat.eqb (S (ncols X)) (length (initial_w s X)) = true).
  { apply Nat.eqb_eq. unfold initial_w.
    rewrite !length_map, length_seq. reflexivity. }
  rewrite HL. cbn [lift ret].
  unfold bind at 1. fold yp. fold s2.
  destruct (cross_entropy Y yp) as [x | e0]; reflexivity.
Qed.

Lemma length_sigmoid_rows (X : matrix F) (v : list F) :
  length (sigmoid (map (row_dot v) (rows (augment X)))) = nrows X.
Proof.
  unfold sigmoid. rewrite !length_map. fold (nrows (augment X)).
  apply nrows_augment.
Qed.

(** A label vector of the wrong length is noticed by the first dot
    product of [cross_entropy], after the shape fields were stored and
    the weights drawn. *)
Lemma fit_shape_mismatch (fuel : nat) (X : matrix F) (Y : list Z)
  (s : world F) :
  nrows X <> length Y ->
  fit fuel X Y s
  = (Raise ValueError,
     World (set_shape (nrows X) (ncols X) (self s)) (out s) (rng s)
           (rng_pos s + S (ncols X))).
Proof.
  intros H. rewrite fit_prefix. cbv zeta.
  rewrite cross_entropy_raises; [reflexivity |].
  rewrite length_sigmoid_rows. exact H.
Qed.

(** [fit] on inputs of agreeing shapes, with fuel for [max_iter - 1]
    passes. *)
Lemma fit_run (fuel : nat) (X : matrix F) (Y : list Z) (s : world F) :
  wf_matrix X = true ->
  length Y = nrows X ->
  (Z.to_nat (max_iter (self s) - 1) <= fuel)%nat ->
  let m := set_shape (nrows X) (ncols X) (self s) in
  exists e0 st' evs,
    cross_entropy Y (probabilities X (initial_w s X)) = inr e0
    /\ passes m X Y (initial_state s X e0) st'
    /\ loop_cond m st' = false
    /\ fit fuel X Y s
       = (Ok tt,
          World (set_trained (cur_w st') m) (out s ++ evs) (rng s)
                (rng_pos s + S (ncols X))).
Proof.
  intros HW HY HF m.
  assert (HL : length (initial_w s X) = S (ncols X)).
  { unfold initial_w. rewrite !length_map, length_seq. reflexivity. }
  destruct (sigmoid_dot_augment X (initial_w s X) HW HL) as [Hd Hp].
  assert (Hyp : sigmoid (map (row_dot (initial_w s X)) (rows (augment X)))
                = probabilities X (initial_w s X)).
  { rewrite <- Hp. f_equal. unfold dot in Hd. cbn [augment ncols] in Hd.
    rewrite (Nat_eqb_same (eq_sym HL)) in Hd. injection Hd as Hd. exact Hd. }
  destruct (cross_entropy_returns Y (probabilities X (initial_w s X)))
    as [e0 He]; [rewrite length_probabilities; congruence |].
  rewrite fit_prefix. cbv zeta. rewrite Hyp, He.
  set (s2 := World m (out s) (rng s) (rng_pos s + S (ncols X))).
  set (s3 := World m (out s ++ start_events m e0) (rng s)
                   (rng_pos s + S (ncols X))).
  destruct (fit_loop_run X Y HW HY fuel (initial_state s X e0) s3)
    as (st' & evs & HR & HP & HC & HS).
  { split; cbn; [exact HL | apply length_probabilities]. }
  { cbn. exact HF. }
  cbn [self out rng rng_pos s3] in HR, HP, HC.
  exists e0, st', (start_events m e0 ++ evs ++ end_events m st').
  split; [reflexivity |]. split; [exact HP |]. split; [exact HC |].
  unfold fit_rest, bind at 1, get_self at 1.
  cbn [self s2].
  assert (H1 : when (show m)
           (bind (emit (Print "Starting fitting process!")) (fun _ =>
            emit (PrintF "Cross entropy is " e0 ".\n"))) s2 = (Ok tt, s3)).
  { unfold s3, start_events, when. destruct (show m).
    - unfold bind, emit. cbn. rewrite <- app_assoc. reflexivity.
    - unfold ret, s2. rewrite app_nil_r. reflexivity. }
  rewrite (bind_Ok _ _ _ _ _ H1).
  fold (initial_state s X e0). rewrite (bind_Ok _ _ _ _ _ HR).
  unfold bind at 1, get_self at 1. cbn [self].
  unfold end_events, bind, get_self, put_self, when, emit, ret.
  destruct (show m && fltb (e st') (error_diff m));
    [| destruct (iterations st' <? max_iter m)];
    cbn [self out rng rng_pos]; rewrite <- ?app_assoc, ?app_nil_r;
    reflexivity.
Qed.

End FitRun.

(** ** [y_probab], [predict] and [get_coef] *)

Section Inference.

Context {F : Type} {FF : Float64 F}.

(** [y_probab] on a matrix of the width of the weights. *)
Lemma y_probab_augmented (X : matrix F) (wv : list F) (s : world F) :
  w (self s) = Some wv ->
  wf_matrix X = true ->
  length wv = S (ncols X) ->
  y_probab (augment X) s = (Ok (probabilities X wv), s).
Proof.
  intros Hw HW HL. unfold y_probab, bind, get_self. rewrite Hw.
  destruct (sigmoid_dot_augment X wv HW HL) as [Hd Hp].
  rewrite Hd. cbn [lift ret]. rewrite Hp. reflexivity.
Qed.

Lemma y_probab_mismatch (X : matrix F) (wv : list F) (s : world F) :
  w (self s) = Some wv ->
  ncols X <> length wv ->
  y_probab X s = (Raise ValueError, s).
Proof.
  intros Hw HL. unfold y_probab, bind, get_self, dot. rewrite Hw.
  destruct (Nat.eqb_spec (ncols X) (length wv)); [contradiction | reflexivity].
Qed.

Lemma predict_run (X : matrix F) (p : F) (wv : list F) (s : world F) :
  trained (self s) = true ->
  w (self s) = Some wv ->
  wf_matrix X = true ->
  length wv = S (ncols X) ->
  predict X p s = (Ok (Some (labels_at X wv p)), s).
Proof.
  intros Ht Hw HW HL. unfold predict, bind at 1, get_self at 1. rewrite Ht.
  rewrite (bind_Ok _ _ _ _ _ (y_probab_augmented X wv s Hw HW HL)).
  reflexivity.
Qed.

Lemma predict_untrained (X : matrix F) (p : F) (s : world F) :
  trained (self s) = false ->
  predict X p s
  = (Ok None, World (self s) (out s ++ [Print "Model not trained."])
                    (rng s) (rng_pos s)).
Proof.
  intros Ht. unfold predict, bind, get_self. rewrite Ht. reflexivity.
Qed.

Lemma get_coef_untrained (s : world F) :
  trained (self s) = false ->
  get_coef s
  = (Ok None, World (self s) (out s ++ [Print "Model not trained."])
                    (rng s) (rng_pos s)).
Proof.
  intros Ht. unfold get_coef, bind, get_self. rewrite Ht. reflexivity.
Qed.

Lemma length_labels_at (X : matrix F) (wv : list F) (p : F) :
  length (labels_at X wv p) = nrows X.
Proof. unfold labels_at. rewrite length_map. apply length_probabilities. Qed.

End Inference.

(** ** [ROC] *)

Section Curve.

Context {F : Type} {FF : Float64 F}.

Lemma confusion_matrix_values (T Y : list Z) :
  (length T <= length Y)%nat ->
  confusion_matrix T Y true
  = inr (CMValues (TP_of T Y) (FP_of T Y) (FN_of T Y) (TN_of T Y)).
Proof.
  intros H. unfold confusion_matrix. rewrite cm_loop_run by exact H.
  rewrite cm_fold_counts. cbn [TP FP TN FN]. rewrite !Z.add_0_l.
  reflexivity.
Qed.

Lemma filter_split_length {A} (f g : A -> bool) (l : list A) :
  (length (filter (fun x => f x && g x) l)
   + length (filter (fun x => f x && negb (g x)) l))%nat
  = length (filter f l).
Proof.
  induction l as [| x l IH]; [reflexivity |].
  cbn [filter]. destruct (f x), (g x); cbn [andb negb length]; lia.
Qed.

Lemma filter_fst_combine (f : Z -> bool) :
  forall T Y : list Z,
    (length T <= length Y)%nat ->
    length (filter (fun p => f (fst p)) (combine T Y)) = length (filter f T).
Proof.
  induction T as [| t T IH]; intros Y H; [reflexivity |].
  destruct Y as [| y Y]; [simpl in H; lia |].
  cbn [combine filter fst]. simpl in H.
  destruct (f t); cbn [length]; rewrite IH by lia; reflexivity.
Qed.

(** [TP + FN] and [TN + FP] only count the true labels. *)
Lemma positives_total (T Y : list Z) :
  (length T <= length Y)%nat ->
  TP_of T Y + FN_of T Y = Z.of_nat (length (filter (fun t => t =? 0) T)).
Proof.
  intros H. unfold TP_of, FN_of, count_if.
  rewrite <- (filter_fst_combine (fun t => t =? 0) T Y H).
  rewrite <- (filter_split_length (fun p => fst p =? 0) (fun p => snd p =? 0)).
  lia.
Qed.

Lemma negatives_total (T Y : list Z) :
  (length T <= length Y)%nat ->
  TN_of T Y + FP_of T Y
  = Z.of_nat (length (filter (fun t => negb (t =? 0)) T)).
Proof.
  intros H. unfold TN_of, FP_of, count_if.
  rewrite <- (filter_fst_combine (fun t => negb (t =? 0)) T Y H).
  rewrite <- (filter_split_length (fun p => negb (fst p =? 0))
                                  (fun p => snd p =? 1)).
  lia.
Qed.

Lemma existsb_filter_pos {A} (f : A -> bool) (l : list A) :
  existsb f l = true -> (0 < length (filter f l))%nat.
Proof.
  induction l as [| x l IH]; [discriminate |].
  cbn [existsb filter]. destruct (f x); cbn [length orb]; [lia | exact IH].
Qed.

Lemma int_div_run (x y : Z) (s : world F) :
  y <> 0 -> int_div x y s = (Ok (fdiv (of_Z x) (of_Z y)), s).
Proof.
  intros H. unfold int_div. destruct (Z.eqb_spec y 0); [contradiction |].
  reflexivity.
Qed.

Section Sweep.

Variables (X : matrix F) (wv : list F) (T : list Z).
Hypothesis Hwf : wf_matrix X = true.
Hypothesis Hlen : length wv = S (ncols X).
Hypothesis HT : (length T <= nrows X)%nat.
Hypothesis Hpos : existsb (fun t => t =? 0) T = true.
Hypothesis Hneg : existsb (fun t => negb (t =? 0)) T = true.

Lemma ROC_step_run (p : F) (acc : list F * list F) (s : world F) :
  trained (self s) = true ->
  w (self s) = Some wv ->
  ROC_step X T p acc s
  = (Ok (fst acc ++ [recall_at X wv T p],
         snd acc ++ [specif_minus_at X wv T p]), s).
Proof.
  intros Ht Hw. unfold ROC_step.
  rewrite (bind_Ok _ _ _ _ _ (predict_run X p wv s Ht Hw Hwf Hlen)).
  assert (HL : (length T <= length (labels_at X wv p))%nat)
    by (rewrite length_labels_at; exact HT).
  unfold confusion_of. rewrite (confusion_matrix_values _ _ HL).
  unfold bind at 1. cbn [lift ret].
  set (ys := labels_at X wv p) in *.
  assert (H1 : TP_of T ys + FN_of T ys <> 0).
  { rewrite (positives_total _ _ HL).
    pose proof (existsb_filter_pos _ _ Hpos). lia. }
  assert (H2 : TN_of T ys + FP_of T ys <> 0).
  { rewrite (negatives_total _ _ HL).
    pose proof (existsb_filter_pos _ _ Hneg). lia. }
  rewrite (bind_Ok _ _ _ _ _ (int_div_run (TP_of T ys) _ s H1)).
  rewrite (bind_Ok _ _ _ _ _ (int_div_run (TN_of T ys) _ s H2)).
  reflexivity.
Qed.

Lemma ROC_sweep_run (ps : list F) :
  forall (acc : list F * list F) (s : world F),
    trained (self s) = true ->
    w (self s) = Some wv ->
    ROC_sweep X T ps acc s
    = (Ok (fst acc ++ map (recall_at X wv T) ps,
           snd acc ++ map (specif_minus_at X wv T) ps), s).
Proof.
  induction ps as [| p ps IH]; intros acc s Ht Hw.
  - cbn. rewrite !app_nil_r. destruct acc; reflexivity.
  - cbn [ROC_sweep]. rewrite (bind_Ok _ _ _ _ _ (ROC_step_run p acc s Ht Hw)).
    rewrite IH by assumption. cbn [fst snd map].
    rewrite <- !app_assoc. reflexivity.
Qed.

End Sweep.

(** The indexed loop of [ROC] is the trapezoidal rule over the points in
    list order. *)
Lemma auc_loop_trapezoid (rest : list (F * F)) :
  forall (done : list (F * F)) (acc : F),
    auc_loop (map snd (done ++ rest)) (map fst (done ++ rest))
             (seq (length done) (length rest - 1)) acc
    = inr (trapezoid rest acc).
Proof.
  induction rest as [| [x0 y0] rest IH]; intros done acc; [reflexivity |].
  destruct rest as [| [x1 y1] rest]; [reflexivity |].
  assert (E : forall q : F * F, (length (q :: rest) - 1 = length rest)%nat)
    by (intros q; cbn [length]; lia).
  rewrite E in IH.
  replace (length ((x0, y0) :: (x1, y1) :: rest) - 1)%nat
    with (S (length rest)) by (cbn [length]; lia).
  cbn [seq auc_loop].
  assert (HA : forall (A : Type) (f : F * F -> A) (i : nat) (q : F * F)
                 (l1 l2 : list (F * F)),
             i = length l1 ->
             nth_error (map f (l1 ++ q :: l2)) i = Some (f q)).
  { intros A f i q l1 l2 ->. rewrite nth_error_map, nth_error_app2 by lia.
    rewrite Nat.sub_diag. reflexivity. }
  rewrite (HA _ snd (length done) (x0, y0) done ((x1, y1) :: rest) eq_refl).
  rewrite (HA _ fst (length done) (x0, y0) done ((x1, y1) :: rest) eq_refl).
  replace (done ++ (x0, y0) :: (x1, y1) :: rest)
    with ((done ++ [(x0, y0)]) ++ (x1, y1) :: rest)
    by (rewrite <- app_assoc; reflexivity).
  rewrite (HA _ snd (length done + 1)%nat (x1, y1) (done ++ [(x0, y0)]) rest)
    by (rewrite length_app; reflexivity).
  rewrite (HA _ fst (length done + 1)%nat (x1, y1) (done ++ [(x0, y0)]) rest)
    by (rewrite length_app; reflexivity).
  cbn [fst snd].
  specialize (IH (done ++ [(x0, y0)])
    (fadd acc (fmul (fmul (fadd y0 y1) (fsub x1 x0)) (flit (1 # 2))))).
  rewrite length_app in IH. cbn [length] in IH.
  replace (length done + 1)%nat with (S (length done)) in IH by lia.
  rewrite IH. reflexivity.
Qed.

Lemma auc_loop_run (recall xs : list F) :
  length xs = length recall ->
  auc_loop recall xs (seq 0 (length recall - 1)) (of_Z 0)
  = inr (trapezoid (combine xs recall) (of_Z 0)).
Proof.
  intros H.
  pose proof (auc_loop_trapezoid (combine xs recall) [] (of_Z 0)) as HA.
  cbn [app length] in HA.
  rewrite length_combine, H, Nat.min_id in HA.
  assert (H1 : map snd (combine xs recall) = recall).
  { clear HA. revert recall H.
    induction xs as [| x xs IH]; intros [| r recall] H;
      try discriminate; [reflexivity |].
    cbn. f_equal. apply IH. simpl in H. lia. }
  assert (H2 : map fst (combine xs recall) = xs).
  { clear HA H1. revert recall H.
    induction xs as [| x xs IH]; intros [| r recall] H;
      try discriminate; [reflexivity |].
    cbn. f_equal. apply IH. simpl in H. lia. }
  rewrite H1, H2 in HA. exact HA.
Qed.

Lemma length_linspace (start stop : F) (num : nat) :
  (0 < num)%nat -> length (linspace start stop num) = num.
Proof.
  intros H. unfold linspace.
  rewrite length_app, length_map, length_seq. cbn [length]. lia.
Qed.

(** A whole run of [ROC] on a trained model and a labelled test set
    that has both classes. *)
Lemma ROC_run (X : matrix F) (wv : list F) (T : list Z) (s : world F) :
  trained (self s) = true ->
  w (self s) = Some wv ->
  wf_matrix X = true ->
  length wv = S (ncols X) ->
  (length T <= nrows X)%nat ->
  existsb (fun t => t =? 0) T = true ->
  existsb (fun t => negb (t =? 0)) T = true ->
  let ps := linspace (of_Z 0) (of_Z 1) divisions in
  let xs := map (specif_minus_at X wv T) ps in
  let ys := map (recall_at X wv T) ps in
  ROC X T s
  = (Ok None,
     World (self s)
           (out s ++ roc_events xs ys (trapezoid (combine xs ys) (of_Z 0)))
           (rng s) (rng_pos s)).
Proof.
  intros Ht Hw HW HL HT Hp Hn ps xs ys. unfold ROC. fold ps.
  rewrite (bind_Ok _ _ _ _ _
    (ROC_sweep_run X wv T HW HL HT Hp Hn ps ([], []) s Ht Hw)).
  cbn [fst snd app]. fold xs. fold ys.
  rewrite auc_loop_run by (unfold xs, ys; rewrite !length_map; reflexivity).
  unfold bind, lift, ret, emit, roc_events. cbn [self out rng rng_pos].
  rewrite <- !app_assoc. reflexivity.
Qed.

End Curve.

(** ** What the methods do to the instance *)

Section Lifecycle.

Context {F : Type} {FF : Float64 F}.

Lemma keeps_self_ret {A} (x : A) : keeps_self (F := F) (ret x).
Proof. intros s. reflexivity. Qed.

Lemma keeps_self_raise {A} (x : exn) : keeps_self (F := F) (A := A) (raise x).
Proof. intros s. reflexivity. Qed.

Lemma keeps_self_emit (x : event F) : keeps_self (emit x).
Proof. intros s. reflexivity. Qed.

Lemma keeps_self_get : keeps_self (F := F) get_self.
Proof. intros s. reflexivity. Qed.

Lemma keeps_self_lift {A} (r : exn + A) : keeps_self (F := F) (lift r).
Proof. intros s. destruct r; reflexivity. Qed.

Lemma keeps_self_bind {A B} (c : M F A) (k : A -> M F B) :
  keeps_self c -> (forall x, keeps_self (k x)) -> keeps_self (bind c k).
Proof.
  intros Hc Hk s. unfold bind. specialize (Hc s).
  destruct (c s) as [[x | x |] s1]; cbn [snd] in *; [| exact Hc | exact Hc].
  rewrite Hk. exact Hc.
Qed.

Lemma keeps_self_when (b : bool) (c : M F unit) :
  keeps_self c -> keeps_self (when b c).
Proof. intros H. destruct b; [exact H | apply keeps_self_ret]. Qed.

Lemma keeps_self_int_div (x y : Z) : keeps_self (F := F) (int_div x y).
Proof.
  unfold int_div. destruct (y =? 0);
    [apply keeps_self_raise | apply keeps_self_ret].
Qed.

Ltac keeps :=
  repeat first
    [ apply keeps_self_ret | apply keeps_self_raise | apply keeps_self_emit
    | apply keeps_self_get | apply keeps_self_lift | apply keeps_self_int_div
    | apply keeps_self_when
    | apply keeps_self_bind; [| intros ?]
    | match goal with
      | |- keeps_self (if ?b then _ else _) => destruct b
      | |- keeps_self (match ?x with _ => _ end) => destruct x
      end ].

Lemma keeps_self_get_coef : keeps_self (F := F) get_coef.
Proof. unfold get_coef. keeps. Qed.

Lemma keeps_self_y_probab (X : matrix F) : keeps_self (y_probab X).
Proof. unfold y_probab. keeps. Qed.

Lemma keeps_self_predict (X : matrix F) (p : F) : keeps_self (predict X p).
Proof.
  unfold predict. apply keeps_self_bind; [apply keeps_self_get | intros m].
  destruct (trained m); [| keeps].
  apply keeps_self_bind; [apply keeps_self_y_probab | intros; keeps].
Qed.

Lemma keeps_self_ROC_sweep (X : matrix F) (T : list Z) (ps : list F) :
  forall acc, keeps_self (ROC_sweep X T ps acc).
Proof.
  induction ps as [| p ps IH]; intros acc; cbn [ROC_sweep]; [keeps |].
  apply keeps_self_bind; [| intros; apply IH].
  unfold ROC_step.
  apply keeps_self_bind; [apply keeps_self_predict | intros; keeps].
Qed.

Lemma keeps_self_ROC (X : matrix F) (T : list Z) : keeps_self (ROC X T).
Proof.
  unfold ROC.
  apply keeps_self_bind; [apply keeps_self_ROC_sweep | intros; keeps].
Qed.

Lemma keeps_self_fit_body (X : matrix F) (Y : list Z) (st : lstate F) :
  keeps_self (fit_body X Y st).
Proof. unfold fit_body. keeps. Qed.

Lemma keeps_self_fit_loop (X : matrix F) (Y : list Z) (fuel : nat) :
  forall st, keeps_self (fit_loop fuel X Y st).
Proof.
  induction fuel as [| fuel IH]; intros st; cbn [fit_loop].
  - apply keeps_self_bind; [apply keeps_self_get | intros m].
    destruct (loop_cond m st); [intros s; reflexivity | keeps].
  - apply keeps_self_bind; [apply keeps_self_get | intros m].
    destruct (loop_cond m st); [| keeps].
    apply keeps_self_bind; [apply keeps_self_fit_body | intros; apply IH].
Qed.

(** The three ways [fit] can end once the first loss is known. *)
Lemma fit_rest_cases (fuel : nat) (X : matrix F) (Y : list Z)
  (w0 yp : list F) (e0 : F) (s2 : world F) :
  exists s3,
    self s3 = self s2 /\
    match fit_loop fuel (augment X) Y (LState w0 yp (of_Z 1) e0 1) s3 with
    | (Ok st', s4) =>
      exists evs,
        fit_rest fuel X Y w0 yp e0 s2
        = (Ok tt, World (set_trained (cur_w st') (self s2)) evs
                        (rng s4) (rng_pos s4))
    | (Raise x, s4) =>
      fit_rest fuel X Y w0 yp e0 s2 = (Raise x, s4) /\ self s4 = self s2
    | (OutOfFuel, s4) =>
      fit_rest fuel X Y w0 yp e0 s2 = (OutOfFuel, s4)
    end.
Proof.
  exists (World (self s2) (out s2 ++ start_events (self s2) e0)
                (rng s2) (rng_pos s2)).
  split; [reflexivity |].
  set (s3 := World _ _ _ _).
  assert (H1 : when (show (self s2))
           (bind (emit (Print "Starting fitting process!")) (fun _ =>
            emit (PrintF "Cross entropy is " e0 ".\n"))) s2 = (Ok tt, s3)).
  { unfold s3, start_events, when. destruct (show (self s2)).
    - unfold bind, emit. cbn. rewrite <- app_assoc. reflexivity.
    - unfold ret. rewrite world_eta. reflexivity. }
  pose proof (keeps_self_fit_loop (augment X) Y fuel
                (LState w0 yp (of_Z 1) e0 1) s3) as HK.
  destruct (fit_loop fuel (augment X) Y (LState w0 yp (of_Z 1) e0 1) s3)
    as [[st' | x |] s4] eqn:HL; cbn [snd] in HK;
    unfold fit_rest, bind at 1, get_self at 1;
    rewrite (bind_Ok _ _ _ _ _ H1); cbv beta.
  - exists (out s4 ++ end_events (self s2) st').
    rewrite (bind_Ok _ _ _ _ _ HL). cbv beta.
    assert (HS : self s4 = self s2) by (rewrite HK; reflexivity).
    unfold end_events, bind, get_self, put_self, when, emit, ret.
    rewrite HS.
    destruct (show (self s2) && fltb (e st') (error_diff (self s2)));
      [| destruct (iterations st' <? max_iter (self s2))];
      cbn [self out rng rng_pos]; rewrite ?HS, ?app_nil_r; reflexivity.
  - rewrite (bind_Raise _ _ _ _ _ HL). split; [reflexivity | exact HK].
  - unfold bind at 1. rewrite HL. reflexivity.
Qed.

(** How a call of [fit] can end, for every input. *)
Lemma fit_cases (fuel : nat) (X : matrix F) (Y : list Z) (s : world F) :
  let m := set_shape (nrows X) (ncols X) (self s) in
  (exists st0 s0 st' s1 evs,
      fit_loop fuel (augment X) Y st0 s0 = (Ok st', s1)
      /\ fit fuel X Y s
         = (Ok tt, World (set_trained (cur_w st') m) evs
                         (rng s1) (rng_pos s1)))
  \/ (exists x s', fit fuel X Y s = (Raise x, s') /\ self s' = m)
  \/ (exists st0 s0 s',
         self s0 = m
         /\ iterations st0 = 1
         /\ fit_loop fuel (augment X) Y st0 s0 = (OutOfFuel, s')
         /\ fit fuel X Y s = (OutOfFuel, s')).
Proof.
  intros m. rewrite fit_prefix. cbv zeta.
  destruct (cross_entropy Y _) as [x | e0]; [right; left; eauto |].
  set (s2 := World _ _ _ _). set (w0 := initial_w s X).
  set (yp := sigmoid _).
  destruct (fit_rest_cases fuel X Y w0 yp e0 s2) as (s3 & HS & HC).
  destruct (fit_loop fuel (augment X) Y (LState w0 yp (of_Z 1) e0 1) s3)
    as [[st' | x |] s4] eqn:HL.
  - left. destruct HC as [evs HC].
    exists (LState w0 yp (of_Z 1) e0 1), s3, st', s4, evs.
    split; [exact HL | exact HC].
  - right; left. destruct HC as [HC H4]. exists x, s4.
    split; [exact HC | rewrite H4; reflexivity].
  - right; right. exists (LState w0 yp (of_Z 1) e0 1), s3, s4.
    repeat split; auto.
Qed.


End Lifecycle.

(** ** The claims about [fit] *)

Section FitClaims.

Context {F : Type} {FF : Float64 F}.

Lemma nth_error_map_seq {A} (f : nat -> A) (n i : nat) :
  (i < n)%nat -> nth_error (map f (seq 0 n)) i = Some (f i).
Proof.
  intros H. rewrite nth_error_map, nth_error_seq.
  destruct (Nat.ltb_spec i n); [reflexivity | lia].
Qed.


(** C3: a pass of the loop of [fit], entered with the loop condition
    true, replaces the weights by [w + a * X_aug^T . (Y - y_prob)] with
    the probabilities [y_prob] the state carries from the pass before;
    entry [j] of the step is the plain sum over the samples, not divided
    by their number.  The probabilities and the cross-entropy are then
    recomputed from the new weights, [e] becomes the decrease of the
    loss, and the loop goes on from that state.  The state [fit] enters
    the loop with has these shapes, and a pass keeps them. *)
Theorem fit_pass_update (fuel : nat) (X : matrix F) (Y : list Z)
  (st : lstate F) (s : world F) :
  wf_matrix X = true ->
  length Y = nrows X ->
  shaped X st ->
  loop_cond (self s) st = true ->
  exists st' s',
    fit_body (augment X) Y st s = (Ok st', s')
    /\ fit_loop (S fuel) (augment X) Y st s
       = fit_loop fuel (augment X) Y st' s'
    /\ self s' = self s
    /\ shaped X st'
    /\ (forall j, (j < S (ncols X))%nat ->
          nth_error (cur_w st') j
          = Some (fadd (at_ (cur_w st) j)
                       (fmul (a (self s)) (gradient X Y (y_prob st) j))))
    /\ y_prob st' = probabilities X (cur_w st')
    /\ cross_entropy Y (y_prob st') = inr (e_prev st')
    /\ e st' = fsub (e_prev st) (e_prev st')
    /\ iterations st' = iterations st + 1
    /\ forall e0, shaped X (initial_state s X e0).
Proof.
  intros HW HY HS HC.
  destruct (fit_body_run X Y st s HW HY HS) as (e_new & He & Hb).
  eexists. eexists. split; [exact Hb |].
  split.
  { rewrite fit_loop_unfold, HC. apply (bind_Ok _ _ _ _ _ Hb). }
  split; [reflexivity |].
  split; [apply shaped_next_state |].
  split.
  { intros j Hj. cbn [next_state cur_w]. unfold next_w.
    apply (nth_error_map_seq
             (fun j => fadd (at_ (cur_w st) j)
                            (fmul (a (self s)) (gradient X Y (y_prob st) j)))).
    exact Hj. }
  cbn [next_state y_prob cur_w e e_prev iterations].
  split; [reflexivity |]. split; [exact He |].
  split; [reflexivity |]. split; [reflexivity |].
  intros e0. split; cbn [initial_state cur_w y_prob].
  - unfold initial_w. rewrite !length_map, length_seq. reflexivity.
  - apply length_probabilities.
Qed.


(** A loop that returns has left with its condition false. *)
Lemma fit_loop_returns_exit (X : matrix F) (Y : list Z) (fuel : nat) :
  forall (st st' : lstate F) (s s' : world F),
    fit_loop fuel X Y st s = (Ok st', s') ->
    loop_cond (self s) st' = false.
Proof.
  induction fuel as [| fuel IH]; intros st st' s s' H;
    rewrite fit_loop_unfold in H;
    destruct (loop_cond (self s) st) eqn:HC; try discriminate.
  - injection H as <- _. exact HC.
  - pose proof (keeps_self_fit_body X Y st s) as HK.
    unfold bind in H.
    destruct (fit_body X Y st s) as [[st1 | x |] s1]; try discriminate.
    cbn [snd] in HK. rewrite <- HK. apply (IH st1 st' s1 s' H).
  - injection H as <- _. exact HC.
Qed.

(** [fit] after its first loss [e0], by the outcome of its loop: the
    loop starts in the world that holds the opening messages, and a
    returning loop is followed by the closing message and the two
    assignments. *)
Lemma fit_rest_run (fuel : nat) (X : matrix F) (Y : list Z)
  (w0 yp : list F) (e0 : F) (s2 : world F) :
  let s3 := World (self s2) (out s2 ++ start_events (self s2) e0)
                  (rng s2) (rng_pos s2) in
  match fit_loop fuel (augment X) Y (LState w0 yp (of_Z 1) e0 1) s3 with
  | (Ok st', s4) =>
    fit_rest fuel X Y w0 yp e0 s2
    = (Ok tt, World (set_trained (cur_w st') (self s2))
                    (out s4 ++ end_events (self s2) st')
                    (rng s4) (rng_pos s4))
  | (Raise x, s4) => fit_rest fuel X Y w0 yp e0 s2 = (Raise x, s4)
  | (OutOfFuel, s4) => fit_rest fuel X Y w0 yp e0 s2 = (OutOfFuel, s4)
  end.
Proof.
  intros s3.
  assert (H1 : when (show (self s2))
           (bind (emit (Print "Starting fitting process!")) (fun _ =>
            emit (PrintF "Cross entropy is " e0 ".\n"))) s2 = (Ok tt, s3)).
  { unfold s3, start_events, when. destruct (show (self s2)).
    - unfold bind, emit. cbn. rewrite <- app_assoc. reflexivity.
    - unfold ret. rewrite world_eta. reflexivity. }
  pose proof (keeps_self_fit_loop (augment X) Y fuel
                (LState w0 yp (of_Z 1) e0 1) s3) as HK.
  destruct (fit_loop fuel (augment X) Y (LState w0 yp (of_Z 1) e0 1) s3)
    as [[st' | x |] s4] eqn:HL; cbn [snd] in HK;
    unfold fit_rest, bind at 1, get_self at 1;
    rewrite (bind_Ok _ _ _ _ _ H1); cbv beta.
  - rewrite (bind_Ok _ _ _ _ _ HL). cbv beta.
    assert (HS : self s4 = self s2) by (rewrite HK; reflexivity).
    unfold end_events, bind, get_self, put_self, when, emit, ret.
    rewrite HS.
    destruct (show (self s2) && fltb (e st') (error_diff (self s2)));
      [| destruct (iterations st' <? max_iter (self s2))];
      cbn [self out rng rng_pos]; rewrite ?HS, ?app_nil_r; reflexivity.
  - apply (bind_Raise _ _ _ _ _ HL).
  - unfold bind at 1. rewrite HL. reflexivity.
Qed.

(** A call of [fit] that returns, taken apart: the first loss was
    computed, the loop ran from the state and the world [fit] builds
    and returned, and the weights stored are those of the state the
    loop returned. *)
Lemma fit_returns_inv (fuel : nat) (X : matrix F) (Y : list Z)
  (s s' : world F) :
  let m := set_shape (nrows X) (ncols X) (self s) in
  let w0 := initial_w s X in
  let yp0 := sigmoid (map (row_dot w0) (rows (augment X))) in
  fit fuel X Y s = (Ok tt, s') ->
  exists e0 st' s4,
    cross_entropy Y yp0 = inr e0
    /\ fit_loop fuel (augment X) Y (LState w0 yp0 (of_Z 1) e0 1)
         (World m (out s ++ start_events m e0) (rng s)
                (rng_pos s + S (ncols X)))
       = (Ok st', s4)
    /\ loop_cond m st' = false
    /\ s' = World (set_trained (cur_w st') m)
                  (out s4 ++ end_events m st') (rng s4) (rng_pos s4).
Proof.
  intros m w0 yp0 H. rewrite fit_prefix in H. cbv zeta in H.
  fold w0 yp0 m in H.
  destruct (cross_entropy Y yp0) as [x | e0]; [discriminate |].
  pose proof (fit_rest_run fuel X Y w0 yp0 e0
                (World m (out s) (rng s) (rng_pos s + S (ncols X)))) as HR.
  cbv zeta in HR. cbn [self out rng rng_pos] in HR.
  destruct (fit_loop fuel (augment X) Y (LState w0 yp0 (of_Z 1) e0 1)
              (World m (out s ++ start_events m e0) (rng s)
                     (rng_pos s + S (ncols X))))
    as [[st' | x |] s4] eqn:HL; rewrite HR in H; try discriminate.
  injection H as <-.
  exists e0, st', s4. split; [reflexivity |]. split; [exact HL |].
  split; [| reflexivity].
  apply (fit_loop_returns_exit _ _ _ _ _ _ _ HL).
Qed.

(** C10, amended: a call of [fit] that returns has set [trained] and
    stored the last computed weights: the weights of the state in which
    the loop, run from the state [fit] builds (the drawn weights, their
    probabilities, [e = 1], the first loss, [iterations = 1]), was left,
    whether by the cap or by the loss test.  On inputs of agreeing
    shapes [fit] does return, and that state is reached from the first
    one by passes of the loop.  [fit] has no failure path of its own,
    but an exception raised inside it leaves [trained] and [w] as they
    were, so a new instance stays untrained.  No method sets [trained]
    back: after [fit], [get_coef], [y_probab], [predict] or [ROC] on a
    trained instance the flag is still set. *)
Theorem fit_sets_trained (fuel : nat) (X : matrix F) (Y : list Z)
  (s : world F) :
  let m := set_shape (nrows X) (ncols X) (self s) in
  let w0 := initial_w s X in
  let yp0 := sigmoid (map (row_dot w0) (rows (augment X))) in
  (forall s', fit fuel X Y s = (Ok tt, s') ->
     exists e0 st' s4,
       cross_entropy Y yp0 = inr e0
       /\ fit_loop fuel (augment X) Y (LState w0 yp0 (of_Z 1) e0 1)
            (World m (out s ++ start_events m e0) (rng s)
                   (rng_pos s + S (ncols X)))
          = (Ok st', s4)
       /\ loop_cond m st' = false
       /\ trained (self s') = true
       /\ w (self s') = Some (cur_w st'))
  /\ (forall x s', fit fuel X Y s = (Raise x, s') ->
        trained (self s') = trained (self s) /\ w (self s') = w (self s))
  /\ (wf_matrix X = true -> length Y = nrows X ->
      (Z.to_nat (max_iter (self s) - 1) <= fuel)%nat ->
      exists e0 st' evs,
        cross_entropy Y (probabilities X w0) = inr e0
        /\ passes m X Y (initial_state s X e0) st'
        /\ loop_cond m st' = false
        /\ fit fuel X Y s
           = (Ok tt,
              World (set_trained (cur_w st') m) (out s ++ evs) (rng s)
                    (rng_pos s + S (ncols X))))
  /\ (trained (self s) = true ->
      forall (X' : matrix F) (T : list Z) (p : F),
        trained (self (snd (fit fuel X Y s))) = true
        /\ trained (self (snd (get_coef s))) = true
        /\ trained (self (snd (y_probab X' s))) = true
        /\ trained (self (snd (predict X' p s))) = true
        /\ trained (self (snd (ROC X' T s))) = true).
Proof.
  intros m w0 yp0.
  pose proof (fit_cases fuel X Y s) as HC. cbv zeta in HC.
  split; [| split; [| split]].
  - intros s' H.
    destruct (fit_returns_inv fuel X Y s s' H)
      as (e0 & st' & s4 & He & HL & HE & ->).
    exists e0, st', s4. repeat split; assumption.
  - intros x s' H.
    destruct HC as [(st0 & s0 & st' & s1 & evs & HL & HR)
                   | [(x1 & s1 & HR & Hs) | (st0 & s0 & s1 & _ & _ & _ & HR)]];
      rewrite HR in H; try discriminate.
    injection H as _ <-. rewrite Hs. split; reflexivity.
  - intros HW HY HF. exact (fit_run fuel X Y s HW HY HF).
  - intros Ht X' T p. split; [| split; [| split; [| split]]].
    + destruct HC as [(st0 & s0 & st' & s1 & evs & HL & HR)
                     | [(x1 & s1 & HR & Hs)
                       | (st0 & s0 & s1 & Hs & _ & HL & HR)]];
        rewrite HR; cbn [snd self].
      * reflexivity.
      * rewrite Hs. exact Ht.
      * pose proof (keeps_self_fit_loop (augment X) Y fuel st0 s0) as HK.
        rewrite HL in HK. cbn [snd] in HK. rewrite HK, Hs. exact Ht.
    + rewrite keeps_self_get_coef. exact Ht.
    + rewrite keeps_self_y_probab. exact Ht.
    + rewrite keeps_self_predict. exact Ht.
    + rewrite keeps_self_ROC. exact Ht.
Qed.

End FitClaims.

(** ** The claims about inference and the curve *)

Section InferenceClaims.

Context {F : Type} {FF : Float64 F}.

Lemma threshold_binary (p : F) (l : list F) :
  Forall (fun z => z = 0 \/ z = 1) (map (threshold p) l).
Proof.
  apply Forall_forall. intros z Hz. apply in_map_iff in Hz.
  destruct Hz as (x & <- & _). unfold threshold.
  destruct (fltb x p); auto.
Qed.

(** C5, amended: [y_probab] adds no intercept column.  On a trained
    model with [D + 1] weights it returns [sigmoid(X . w)] for the
    matrix it is given when that has [D + 1] columns, and raises on an
    [N x D] matrix.  [predict] adds the column of ones before the call,
    so the probabilities it thresholds are [sigmoid(X_aug . w)]. *)
Theorem y_probab_no_augment (X : matrix F) (wv : list F) (s : world F) :
  w (self s) = Some wv ->
  wf_matrix X = true ->
  length wv = S (ncols X) ->
  y_probab X s = (Raise ValueError, s)
  /\ y_probab (augment X) s = (Ok (probabilities X wv), s)
  /\ (forall i, (i < nrows X)%nat ->
        nth_error (probabilities X wv) i
        = Some (sigmoid1 (big_sum (fun j => fmul (aug_entry X i j) (at_ wv j))
                                  (S (ncols X)))))
  /\ (forall p, trained (self s) = true ->
        predict X p s
        = (Ok (Some (map (threshold p) (probabilities X wv))), s))
  /\ (forall Xa, ncols Xa = length wv ->
        y_probab Xa s = (Ok (sigmoid (map (row_dot wv) (rows Xa))), s)).
Proof.
  intros Hw HW HL. split; [| split; [| split; [| split]]].
  - apply (y_probab_mismatch X wv s Hw). lia.
  - apply y_probab_augmented; assumption.
  - intros i Hi. unfold probabilities.
    apply (nth_error_map_seq (probability X wv)). exact Hi.
  - intros p Ht. apply predict_run; assumption.
  - intros Xa Ha. unfold y_probab, bind, get_self, dot. rewrite Hw.
    rewrite (Nat_eqb_same Ha). reflexivity.
Qed.

(** C7, amended: neither [fit] nor [predict] checks shapes on entry.
    When the label vector has not one entry per row, [fit] first stores
    [N] and [D] and draws the [D + 1] weights; the first dot product of
    [cross_entropy] then raises numpy's ValueError and the model stays
    as it was.  When the width of [X] is not the number of weights less
    one, [predict] raises the same error from the dot product of
    [y_probab], after adding the intercept column. *)
Theorem shape_mismatch_raises_in_dot (fuel : nat) (X : matrix F) (Y : list Z)
  (p : F) (wv : list F) (s : world F) :
  (nrows X <> length Y ->
   fit fuel X Y s
   = (Raise ValueError,
      World (set_shape (nrows X) (ncols X) (self s)) (out s) (rng s)
            (rng_pos s + S (ncols X))))
  /\ (trained (self s) = true ->
      w (self s) = Some wv ->
      length wv <> S (ncols X) ->
      predict X p s = (Raise ValueError, s)).
Proof.
  split.
  - apply fit_shape_mismatch.
  - intros Ht Hw HL. unfold predict, bind at 1, get_self at 1. rewrite Ht.
    apply bind_Raise. apply (y_probab_mismatch (augment X) wv s Hw).
    cbn [augment ncols]. congruence.
Qed.

(** C8: on a trained model, [predict(X, p)] returns one label for each
    row of [X]: 0 where the predicted probability of the row is below
    [p], 1 everywhere else, so every label is 0 or 1. *)
Theorem predict_labels (X : matrix F) (p : F) (wv : list F) (s : world F) :
  trained (self s) = true ->
  w (self s) = Some wv ->
  wf_matrix X = true ->
  length wv = S (ncols X) ->
  exists labels,
    predict X p s = (Ok (Some labels), s)
    /\ y_probab (augment X) s = (Ok (probabilities X wv), s)
    /\ length labels = nrows X
    /\ (forall i, (i < nrows X)%nat ->
          nth_error (probabilities X wv) i = Some (probability X wv i)
          /\ nth_error labels i
             = Some (if fltb (probability X wv i) p then 0 else 1))
    /\ Forall (fun l => l = 0 \/ l = 1) labels.
Proof.
  intros Ht Hw HW HL. exists (labels_at X wv p).
  split; [apply predict_run; assumption |].
  split; [apply y_probab_augmented; assumption |].
  split; [apply length_labels_at |].
  split; [| apply threshold_binary].
  intros i Hi.
  assert (HP : nth_error (probabilities X wv) i = Some (probability X wv i))
    by (apply (nth_error_map_seq (probability X wv)); exact Hi).
  split; [exact HP |].
  unfold labels_at. rewrite nth_error_map, HP. reflexivity.
Qed.

End InferenceClaims.

(** ** Over the reals *)

Lemma Rltb_true (x y : R) : (x < y)%R -> Rltb x y = true.
Proof. intros H. unfold Rltb. destruct (Rlt_dec x y); tauto. Defined.

Lemma default_error_diff_small : (Q2R (1 # 10000000) < 1)%R.
Proof. unfold Q2R. cbn [Qnum Qden]. lra. Defined.

(** The thresholds of [ROC] are [0, 1/99, 2/99, ..., 1]. *)
Lemma linspace_thresholds (i : nat) :
  (i < 100)%nat ->
  nth i (linspace (F := R) (of_Z 0) (of_Z 1) divisions) 0%R
  = (INR i / 99)%R.
Proof.
  intros H. unfold linspace, divisions.
  change (100 - 1)%nat with 99%nat.
  destruct (Nat.eq_dec i 99) as [-> | Hne].
  - rewrite app_nth2 by (rewrite length_map, length_seq; lia).
    rewrite length_map, length_seq. cbn [Nat.sub nth of_Z R_Float64].
    rewrite INR_IZR_INZ. cbn. lra.
  - rewrite app_nth1 by (rewrite length_map, length_seq; lia).
    rewrite (nth_indep _ 0%R
               ((fun i => fadd (fmul (of_Z (Z.of_nat i))
                                     (fdiv (fsub (of_Z 1) (of_Z 0))
                                           (of_Z (Z.of_nat 99))))
                               (of_Z 0)) 0%nat))
      by (rewrite length_map, length_seq; lia).
    rewrite (map_nth (fun i => fadd (fmul (of_Z (Z.of_nat i))
                                          (fdiv (fsub (of_Z 1) (of_Z 0))
                                                (of_Z (Z.of_nat 99))))
                                    (of_Z 0))).
    rewrite seq_nth by lia. cbn [of_Z fadd fmul fdiv fsub R_Float64 Nat.add].
    rewrite INR_IZR_INZ. change (IZR (Z.of_nat 99)) with 99%R. lra.
Qed.

(** C2, amended: on a trained model and a labelled test set that holds
    both a 0 label and another one, [ROC] sweeps the threshold over 100
    values, [i / 99] for [i = 0 .. 99] in real arithmetic, records
    [TP / (TP + FN)] and [1 - TN / (TN + FP)] from the counts of
    [confusion_matrix] at each, and computes the area by the trapezoidal
    rule over consecutive points in sweep order.  The two sequences and
    the area go to the plotting calls; the call itself returns [None]. *)
Theorem ROC_sweeps_and_plots {F : Type} {FF : Float64 F}
  (X : matrix F) (wv : list F) (T : list Z) (s : world F) :
  trained (self s) = true ->
  w (self s) = Some wv ->
  wf_matrix X = true ->
  length wv = S (ncols X) ->
  length T = nrows X ->
  existsb (fun t => t =? 0) T = true ->
  existsb (fun t => negb (t =? 0)) T = true ->
  let ps := linspace (of_Z 0) (of_Z 1) divisions in
  let xs := map (specif_minus_at X wv T) ps in
  let ys := map (recall_at X wv T) ps in
  length ps = 100%nat
  /\ (forall i, (i < 100)%nat ->
        nth i (linspace (F := R) (of_Z 0) (of_Z 1) divisions) 0%R
        = (INR i / 99)%R)
  /\ (forall p, exists tp fp fn tn,
        predict X p s = (Ok (Some (labels_at X wv p)), s)
        /\ confusion_matrix T (labels_at X wv p) true
           = inr (CMValues tp fp fn tn)
        /\ recall_at X wv T p = fdiv (of_Z tp) (of_Z (tp + fn))
        /\ specif_minus_at X wv T p
           = fsub (of_Z 1) (fdiv (of_Z tn) (of_Z (tn + fp))))
  /\ ROC X T s
     = (Ok None,
        World (self s)
              (out s ++ roc_events xs ys (trapezoid (combine xs ys) (of_Z 0)))
              (rng s) (rng_pos s)).
Proof.
  intros Ht Hw HW HL HT Hp Hn ps xs ys.
  split; [apply length_linspace; unfold divisions; lia |].
  split; [exact linspace_thresholds |].
  split.
  - intros p.
    exists (TP_of T (labels_at X wv p)), (FP_of T (labels_at X wv p)),
           (FN_of T (labels_at X wv p)), (TN_of T (labels_at X wv p)).
    split; [apply predict_run; assumption |].
    split; [| split; reflexivity].
    apply confusion_matrix_values. rewrite length_labels_at. lia.
  - apply ROC_run; try assumption. lia.
Qed.

Lemma ROC_sweeps_and_plots_witness :
  fst (ROC X2 T2 trained_world) = Ok None
  /\ length (out (snd (ROC X2 T2 trained_world))) = 6%nat.
Proof.
  destruct (ROC_sweeps_and_plots X2 [0%R; 0%R] T2 trained_world
              eq_refl eq_refl eq_refl eq_refl eq_refl eq_refl eq_refl)
    as (_ & _ & _ & H).
  rewrite H. split; reflexivity.
Defined.

(** The curve is not what the caller of [ROC] gets. *)
Lemma ROC_returns_None :
  fst (ROC X2 T2 trained_world) = Ok None
  /\ forall curve, fst (ROC X2 T2 trained_world) <> Ok (Some curve).
Proof.
  assert (H : fst (ROC X2 T2 trained_world) = Ok None).
  { rewrite (ROC_run X2 [0%R; 0%R] T2 trained_world
               eq_refl eq_refl eq_refl eq_refl (le_n 2) eq_refl eq_refl).
    reflexivity. }
  split; [exact H |]. intros curve. rewrite H. discriminate.
Qed.

(** A test set without a 0 label stops [ROC] at its first division. *)
Lemma ROC_one_class_raises :
  fst (ROC X1 [1] trained_world) = Raise ZeroDivisionError.
Proof.
  unfold ROC. unfold linspace, divisions.
  change (100 - 1)%nat with (S 98). cbn [seq map app ROC_sweep].
  assert (H : forall p acc,
            ROC_step X1 [1] p acc trained_world
            = (Raise ZeroDivisionError, trained_world)).
  { intros p acc. unfold ROC_step.
    rewrite (bind_Ok _ _ _ _ _
      (predict_run X1 p [0%R; 0%R] trained_world
         eq_refl eq_refl eq_refl eq_refl)).
    unfold confusion_of.
    rewrite confusion_matrix_values
      by (rewrite length_labels_at; apply le_n).
    unfold bind at 1. cbn [lift ret].
    assert (E : TP_of [1] (labels_at X1 [0%R; 0%R] p)
                + FN_of [1] (labels_at X1 [0%R; 0%R] p) = 0).
    { rewrite positives_total by (rewrite length_labels_at; apply le_n).
      reflexivity. }
    rewrite E. reflexivity. }
  unfold bind at 1. unfold bind at 1. rewrite H. reflexivity.
Qed.

(** C6: on an instance that was never fitted, [predict] and [get_coef]
    print their message and return [None], but [y_probab] has no such
    guard: with one sample [[1.0]] it raises a TypeError from the
    product with [None], and prints nothing. *)
Theorem untrained_y_probab_raises :
  y_probab X1 fresh_world = (Raise TypeError, fresh_world)
  /\ predict X1 (flit (1 # 2)) fresh_world
     = (Ok None, World (self fresh_world) [Print "Model not trained."]
                       (rng fresh_world) (rng_pos fresh_world))
  /\ get_coef fresh_world
     = (Ok None, World (self fresh_world) [Print "Model not trained."]
                       (rng fresh_world) (rng_pos fresh_world)).
Proof.
  split; [reflexivity |]. split.
  - apply (predict_untrained X1 (flit (1 # 2)) fresh_world eq_refl).
  - apply (get_coef_untrained fresh_world eq_refl).
Qed.

Lemma pass_state_enters : loop_cond (self fresh_world) pass_state = true.
Proof.
  unfold loop_cond. cbn.
  rewrite (Rltb_true _ _ default_error_diff_small). reflexivity.
Defined.

Lemma fit_pass_update_witness :
  exists st' s',
    fit_body (augment X2) T2 pass_state fresh_world = (Ok st', s')
    /\ iterations st' = 2.
Proof.
  destruct (fit_pass_update 0 X2 T2 pass_state fresh_world
              eq_refl eq_refl (conj eq_refl eq_refl) pass_state_enters)
    as (st' & s' & H & _ & _ & _ & _ & _ & _ & _ & Hi & _).
  exists st', s'. split; [exact H | exact Hi].
Defined.



Lemma y_probab_no_augment_witness :
  y_probab X2 trained_world = (Raise ValueError, trained_world)
  /\ y_probab (augment X2) trained_world
     = (Ok (probabilities X2 [0%R; 0%R]), trained_world).
Proof.
  destruct (y_probab_no_augment X2 [0%R; 0%R] trained_world
              eq_refl eq_refl eq_refl) as (H1 & H2 & _).
  split; [exact H1 | exact H2].
Defined.

(** Given an [N x D] matrix, [y_probab] does not return
    [sigmoid(X_aug . w)]: it raises. *)
Lemma y_probab_rejects_unaugmented :
  y_probab X1 trained_world = (Raise ValueError, trained_world)
  /\ fst (y_probab X1 trained_world)
     <> Ok (probabilities X1 [0%R; 0%R]).
Proof.
  assert (H : y_probab X1 trained_world = (Raise ValueError, trained_world))
    by reflexivity.
  split; [exact H | rewrite H; discriminate].
Qed.

Lemma shape_mismatch_raises_in_dot_witness :
  fst (fit 0 X5 Y4 fresh_world) = Raise ValueError
  /\ predict X_wide (flit (1 # 2)) trained_world
     = (Raise ValueError, trained_world).
Proof.
  destruct (shape_mismatch_raises_in_dot 0 X5 Y4 (flit (1 # 2))
              [0%R; 0%R] fresh_world) as [H1 _].
  destruct (shape_mismatch_raises_in_dot 0 X_wide Y4 (flit (1 # 2))
              [0%R; 0%R] trained_world) as [_ H2].
  split.
  - rewrite H1; [reflexivity | discriminate].
  - apply H2; [reflexivity | reflexivity | discriminate].
Defined.

(** Five rows against four labels: [fit] has stored [N] and [D] and drawn
    its two weights before the error comes, from numpy. *)
Lemma fit_checks_no_shape_on_entry :
  fit 1000 X5 Y4 fresh_world
  = (Raise ValueError,
     World (set_shape 5 1 (self fresh_world)) [] (rng fresh_world) 2).
Proof.
  rewrite fit_shape_mismatch by discriminate. reflexivity.
Qed.

Lemma predict_labels_witness :
  exists labels,
    predict X2 (flit (1 # 2)) trained_world = (Ok (Some labels), trained_world)
    /\ length labels = 2%nat
    /\ Forall (fun l => l = 0 \/ l = 1) labels.
Proof.
  destruct (predict_labels X2 (flit (1 # 2)) [0%R; 0%R] trained_world
              eq_refl eq_refl eq_refl eq_refl)
    as (labels & H1 & _ & H2 & _ & H3).
  exists labels. split; [exact H1 |]. split; [exact H2 | exact H3].
Defined.

Lemma fit_sets_trained_witness :
  exists s' st',
    fit 999 X2 T2 fresh_world = (Ok tt, s')
    /\ trained (self s') = true
    /\ w (self s') = Some (cur_w st').
Proof.
  destruct (fit_sets_trained 999 X2 T2 fresh_world) as (H1 & _ & H3 & _).
  destruct H3 as (e0 & st & evs & _ & _ & _ & H);
    [reflexivity | reflexivity | cbn; lia |].
  destruct (H1 _ H) as (e1 & st' & s4 & _ & _ & _ & Ht & Hw).
  eexists. exists st'.
  split; [exact H |]. split; [exact Ht | exact Hw].
Defined.

(** A failing call of [fit] leaves a new instance untrained. *)
Lemma fit_failure_leaves_untrained :
  fst (fit 1000 X5 Y4 fresh_world) = Raise ValueError
  /\ trained (self (snd (fit 1000 X5 Y4 fresh_world))) = false.
Proof.
  rewrite fit_shape_mismatch by discriminate. split; reflexivity.
Qed.

(** * Further properties of the code *)

(** ** [confusion_matrix] on vectors of any length and value *)

Section ConfusionEdges.

Lemma cm_loop_short (T2 : list Z) :
  forall (Y2 T1 Y1 : list Z) (c : counts),
    length T1 = length Y1 ->
    (length Y2 < length T2)%nat ->
    cm_loop (T1 ++ T2) (Y1 ++ Y2) (seq (length T1) (length T2)) c
    = inl IndexError.
Proof.
  induction T2 as [| t T2 IH]; intros Y2 T1 Y1 c HL HY.
  - simpl in HY. lia.
  - cbn [length seq cm_loop].
    rewrite nth_error_app2 by lia. rewrite Nat.sub_diag. cbn [nth_error].
    destruct Y2 as [| y Y2].
    + rewrite app_nil_r.
      rewrite (proj2 (nth_error_None Y1 (length T1))) by lia. reflexivity.
    + rewrite (nth_error_app2 Y1) by lia. rewrite HL, Nat.sub_diag.
      cbn [nth_error]. rewrite <- HL.
      specialize (IH Y2 (T1 ++ [t]) (Y1 ++ [y]) (cm_step t y c)).
      rewrite <- !app_assoc in IH. cbn [app] in IH.
      rewrite !length_app in IH. cbn [length] in IH.
      replace (length T1 + 1)%nat with (S (length T1)) in IH by lia.
      apply IH; [lia | simpl in HY; lia].
Qed.

Lemma combine_surplus (T : list Z) :
  forall Y extra : list Z,
    (length T <= length Y)%nat -> combine T (Y ++ extra) = combine T Y.
Proof.
  induction T as [| t T IH]; intros Y extra H; [reflexivity |].
  destruct Y as [| y Y]; [simpl in H; lia |].
  cbn [app combine]. f_equal. apply IH. simpl in H. lia.
Qed.

Lemma confusion_matrix_short (T Y_prob : list Z) (values : bool) :
  (length Y_prob < length T)%nat ->
  confusion_matrix T Y_prob values = inl IndexError.
Proof.
  intros H. unfold confusion_matrix.
  pose proof (cm_loop_short T Y_prob [] [] (Counts 0 0 0 0) eq_refl H) as HS.
  cbn [app length] in HS. rewrite HS. reflexivity.
Qed.

(** X1: [confusion_matrix] needs a prediction for every true label.
    With fewer predictions than labels it raises IndexError, in both
    return forms; predictions beyond the last label are never read, so
    appending any to a long enough vector changes nothing. *)
Theorem confusion_matrix_lengths (T Y_prob extra : list Z) (values : bool) :
  ((length Y_prob < length T)%nat ->
   confusion_matrix T Y_prob values = inl IndexError)
  /\ ((length T <= length Y_prob)%nat ->
      confusion_matrix T (Y_prob ++ extra) values
      = confusion_matrix T Y_prob values).
Proof.
  split; intros H.
  - apply confusion_matrix_short, H.
  - unfold confusion_matrix. rewrite !cm_loop_run by (rewrite ?length_app; lia).
    rewrite combine_surplus by exact H. reflexivity.
Qed.

Lemma confusion_matrix_lengths_witness :
  confusion_matrix [0; 1; 1] [0; 1] true = inl IndexError
  /\ confusion_matrix [0; 1] ([0; 1] ++ [7; 7]) false
     = confusion_matrix [0; 1] [0; 1] false.
Proof.
  destruct (confusion_matrix_lengths [0; 1; 1] [0; 1] [] true) as [H1 _].
  destruct (confusion_matrix_lengths [0; 1] [0; 1] [7; 7] false) as [_ H2].
  split; [apply H1; cbn; lia | apply H2; cbn; lia].
Defined.

(** X2: the labels need not be binary.  A sample whose true label is 0
    counts as TP when its prediction is 0 and as FN for any other
    prediction; a sample with any other true label counts as TN when its
    prediction is 1 and as FP for any other prediction.  The two return
    forms hold the same four counts, none of them negative. *)
Theorem confusion_matrix_any_labels (T Y_prob : list Z) :
  (length T <= length Y_prob)%nat ->
  let tp := count_if (fun t y => (t =? 0) && (y =? 0)) T Y_prob in
  let fn := count_if (fun t y => (t =? 0) && negb (y =? 0)) T Y_prob in
  let tn := count_if (fun t y => negb (t =? 0) && (y =? 1)) T Y_prob in
  let fp := count_if (fun t y => negb (t =? 0) && negb (y =? 1)) T Y_prob in
  confusion_matrix T Y_prob true = inr (CMValues tp fp fn tn)
  /\ confusion_matrix T Y_prob false = inr (CMArray [[tp; fn]; [fp; tn]])
  /\ 0 <= tp /\ 0 <= fp /\ 0 <= fn /\ 0 <= tn.
Proof.
  intros H tp fn tn fp. unfold confusion_matrix.
  rewrite cm_loop_run by exact H. rewrite cm_fold_counts.
  cbn [TP FP TN FN]. rewrite !Z.add_0_l.
  repeat split; unfold tp, fp, fn, tn, count_if; lia.
Qed.

Lemma confusion_matrix_any_labels_witness :
  confusion_matrix [0; 2; -1; 0] [5; 0; 1; 0] true = inr (CMValues 1 1 1 1).
Proof.
  destruct (confusion_matrix_any_labels [0; 2; -1; 0] [5; 0; 1; 0])
    as (H & _); [cbn; lia |].
  exact H.
Defined.

End ConfusionEdges.

(** ** [metrics] *)

Section MetricsProps.

Context {F : Type} {FF : Float64 F} {FE : FloatEq F}.

Lemma existsb_false_filter {A} (f : A -> bool) (l : list A) :
  existsb f l = false -> length (filter f l) = 0%nat.
Proof.
  induction l as [| x l IH]; [reflexivity |].
  cbn [existsb filter]. destruct (f x); [discriminate | exact IH].
Qed.

Lemma counts_total (T Y : list Z) :
  (length T <= length Y)%nat ->
  TN_of T Y + TP_of T Y + FN_of T Y + FP_of T Y = Z.of_nat (length T).
Proof.
  intros H.
  pose proof (positives_total T Y H) as HP.
  pose proof (negatives_total T Y H) as HN.
  pose proof (filter_length (fun t => t =? 0) T) as HL.
  lia.
Qed.

(** X3: [metrics] guards none of its divisions.  It raises
    ZeroDivisionError whenever a class is missing among the true labels
    ([TP + FN = 0] or [TN + FP = 0]) or a count pair of the predictions
    is empty ([TP + FP = 0] or [TN + FN = 0]), and IndexError when there
    are fewer predictions than labels; nothing else is changed. *)
Theorem metrics_errors (T Y : list Z) (s : world F) :
  ((length Y < length T)%nat -> metrics T Y s = (Raise IndexError, s))
  /\ ((length T <= length Y)%nat ->
      existsb (fun t => t =? 0) T = false
      \/ existsb (fun t => negb (t =? 0)) T = false
      \/ TP_of T Y + FP_of T Y = 0
      \/ TN_of T Y + FN_of T Y = 0 ->
      metrics T Y s = (Raise ZeroDivisionError, s)).
Proof.
  split.
  - intros H. unfold metrics.
    rewrite (confusion_matrix_short T Y true H). reflexivity.
  - intros H HD. unfold metrics.
    rewrite (confusion_matrix_values T Y H).
    unfold bind at 1. cbn [lift ret].
    pose proof (positives_total T Y H) as HP.
    pose proof (negatives_total T Y H) as HN.
    unfold bind, int_div, float_div, ret, raise.
    repeat match goal with
           | |- context [if ?b then _ else _] => destruct b eqn:?
           end; try reflexivity.
    exfalso.
    destruct HD as [HD | [HD | [HD | HD]]].
    + apply existsb_false_filter in HD. lia.
    + apply existsb_false_filter in HD. lia.
    + lia.
    + lia.
Qed.

(** X4: when both classes occur among the true labels and both count
    pairs of the predictions are non-empty, [metrics] returns its report
    and changes nothing: recall, precision and F1 of each class as the
    quotients of the four counts, and the accuracy [(TN + TP) / len(T)].
    The float divisors [TP + 0.5 * (FP + FN)] and
    [TN + 0.5 * (FN + FP)] are assumed non-zero for counts that are not
    all zero, as they are in real arithmetic. *)
Theorem metrics_report (T Y : list Z) (s : world F) :
  (forall x y, 0 <= x -> 0 <= y -> 0 < x + y ->
     feqb (fadd (of_Z x) (fmul (flit (1 # 2)) (of_Z y))) (of_Z 0) = false) ->
  length T = length Y ->
  existsb (fun t => t =? 0) T = true ->
  existsb (fun t => negb (t =? 0)) T = true ->
  TP_of T Y + FP_of T Y <> 0 ->
  TN_of T Y + FN_of T Y <> 0 ->
  let tp := TP_of T Y in
  let fp := FP_of T Y in
  let fn := FN_of T Y in
  let tn := TN_of T Y in
  metrics T Y s
  = (Ok (Report
           (ClassReport
              (fdiv (of_Z tp) (of_Z (tp + fn)))
              (fdiv (of_Z tp) (of_Z (tp + fp)))
              (fdiv (of_Z tp)
                    (fadd (of_Z tp) (fmul (flit (1 # 2)) (of_Z (fp + fn))))))
           (ClassReport
              (fdiv (of_Z tn) (of_Z (tn + fp)))
              (fdiv (of_Z tn) (of_Z (tn + fn)))
              (fdiv (of_Z tn)
                    (fadd (of_Z tn) (fmul (flit (1 # 2)) (of_Z (fn + fp))))))
           (fdiv (of_Z (tn + tp)) (of_Z (Z.of_nat (length T))))),
     s).
Proof.
  intros Hhalf HL Hp Hn H1 H2 tp fp fn tn.
  assert (H : (length T <= length Y)%nat) by lia.
  unfold metrics. rewrite (confusion_matrix_values T Y H).
  unfold bind at 1. cbn [lift ret]. fold tp fp fn tn.
  pose proof (positives_total T Y H) as HP. fold tp fn in HP.
  pose proof (negatives_total T Y H) as HN. fold tn fp in HN.
  pose proof (existsb_filter_pos _ _ Hp) as Hp'.
  pose proof (existsb_filter_pos _ _ Hn) as Hn'.
  pose proof (counts_total T Y H) as HT. fold tp fp fn tn in HT.
  assert (Hnn : 0 <= tp /\ 0 <= fp /\ 0 <= fn /\ 0 <= tn)
    by (unfold tp, fp, fn, tn, TP_of, FP_of, FN_of, TN_of, count_if; lia).
  fold tp fp in H1. fold tn fn in H2.
  rewrite (bind_Ok _ _ _ _ _ (int_div_run tp (tp + fn) s ltac:(lia))).
  rewrite (bind_Ok _ _ _ _ _ (int_div_run tp (tp + fp) s H1)).
  unfold float_div.
  rewrite (Hhalf tp (fp + fn)) by lia. unfold bind at 1, ret at 1.
  rewrite (bind_Ok _ _ _ _ _ (int_div_run tn (tn + fp) s ltac:(lia))).
  rewrite (bind_Ok _ _ _ _ _ (int_div_run tn (tn + fn) s H2)).
  rewrite (Hhalf tn (fn + fp)) by lia. unfold bind at 1, ret at 1.
  rewrite (bind_Ok _ _ _ _ _
             (int_div_run (tn + tp) (tn + tp + fn + fp) s ltac:(lia))).
  rewrite HT. reflexivity.
Qed.

End MetricsProps.

Lemma R_half_divisor (x y : Z) :
  0 <= x -> 0 <= y -> 0 < x + y ->
  feqb (F := R) (fadd (of_Z x) (fmul (flit (1 # 2)) (of_Z y))) (of_Z 0)
  = false.
Proof.
  intros Hx Hy Hxy. cbn [feqb R_FloatEq fadd fmul flit of_Z R_Float64].
  unfold Reqb. destruct (Req_dec_T _ _) as [E | E]; [| reflexivity].
  exfalso. apply IZR_le in Hx, Hy. apply IZR_lt in Hxy.
  rewrite plus_IZR in Hxy. unfold Q2R in E. cbn [Qnum Qden] in E. lra.
Defined.

Lemma metrics_errors_witness :
  metrics (F := R) [0; 1] [0] fresh_world = (Raise IndexError, fresh_world)
  /\ metrics (F := R) [1; 1] [0; 1] fresh_world
     = (Raise ZeroDivisionError, fresh_world).
Proof.
  destruct (metrics_errors (F := R) [0; 1] [0] fresh_world) as [H1 _].
  destruct (metrics_errors (F := R) [1; 1] [0; 1] fresh_world) as [_ H2].
  split; [apply H1; cbn; lia | apply H2; [cbn; lia | left; reflexivity]].
Defined.

Lemma metrics_report_witness :
  fst (metrics (F := R) [0; 0; 1; 1] [0; 1; 1; 0] fresh_world)
  = Ok (Report (ClassReport (1 / 2) (1 / 2) (1 / (1 + Q2R (1 # 2) * 2)))
               (ClassReport (1 / 2) (1 / 2) (1 / (1 + Q2R (1 # 2) * 2)))
               (2 / 4))%R.
Proof.
  rewrite (metrics_report (F := R) [0; 0; 1; 1] [0; 1; 1; 0] fresh_world
             R_half_divisor eq_refl eq_refl eq_refl);
    [reflexivity | discriminate | discriminate].
Defined.

(** ** [ROC] on an untrained model and on unfit test sets *)

Section CurveEdges.

Context {F : Type} {FF : Float64 F}.

Lemma linspace_head (start stop : F) (num : nat) :
  exists p ps, linspace start stop num = p :: ps.
Proof.
  unfold linspace. destruct (map _ (seq 0 (num - 1))); cbn [app]; eauto.
Qed.

Lemma ROC_first_step (X : matrix F) (T : list Z) (x : exn) (s s' : world F) :
  (forall p acc, ROC_step X T p acc s = (Raise x, s')) ->
  ROC X T s = (Raise x, s').
Proof.
  intros H. unfold ROC.
  destruct (linspace_head (of_Z 0) (of_Z 1) divisions) as (p & ps & E).
  rewrite E. cbn [ROC_sweep].
  apply bind_Raise. apply bind_Raise. apply H.
Qed.

(** X5: [ROC] on a model that was never fitted does not plot.  [predict]
    prints its message once and returns [None]; subscripting that in
    [confusion_matrix] raises TypeError as soon as there is one label. *)
Theorem ROC_untrained (X : matrix F) (T : list Z) (s : world F) :
  trained (self s) = false ->
  T <> [] ->
  ROC X T s
  = (Raise TypeError,
     World (self s) (out s ++ [Print "Model not trained."]) (rng s)
           (rng_pos s)).
Proof.
  intros Ht HT. apply ROC_first_step. intros p acc. unfold ROC_step.
  rewrite (bind_Ok _ _ _ _ _ (predict_untrained X p s Ht)).
  destruct T as [| t T]; [contradiction |]. reflexivity.
Qed.

(** X6: on a trained model, a test set with more labels than [X] has
    rows makes [ROC] raise IndexError at the first threshold, and one
    without a 0 label or without any other label makes it raise
    ZeroDivisionError there; in both cases nothing is plotted. *)
Theorem ROC_unfit_test_set (X : matrix F) (wv : list F) (T : list Z)
  (s : world F) :
  trained (self s) = true ->
  w (self s) = Some wv ->
  wf_matrix X = true ->
  length wv = S (ncols X) ->
  ((nrows X < length T)%nat -> ROC X T s = (Raise IndexError, s))
  /\ ((length T <= nrows X)%nat ->
      existsb (fun t => t =? 0) T = false
      \/ existsb (fun t => negb (t =? 0)) T = false ->
      ROC X T s = (Raise ZeroDivisionError, s)).
Proof.
  intros Ht Hw HW HL. split.
  - intros H. apply ROC_first_step. intros p acc. unfold ROC_step.
    rewrite (bind_Ok _ _ _ _ _ (predict_run X p wv s Ht Hw HW HL)).
    unfold confusion_of.
    rewrite (confusion_matrix_short T (labels_at X wv p) true)
      by (rewrite length_labels_at; exact H).
    reflexivity.
  - intros H HD. apply ROC_first_step. intros p acc. unfold ROC_step.
    rewrite (bind_Ok _ _ _ _ _ (predict_run X p wv s Ht Hw HW HL)).
    assert (HY : (length T <= length (labels_at X wv p))%nat)
      by (rewrite length_labels_at; exact H).
    unfold confusion_of. rewrite (confusion_matrix_values _ _ HY).
    unfold bind at 1. cbn [lift ret].
    pose proof (positives_total _ _ HY) as HP.
    pose proof (negatives_total _ _ HY) as HN.
    unfold bind, int_div, ret, raise.
    destruct HD as [HD | HD]; apply existsb_false_filter in HD.
    + rewrite HP, HD. reflexivity.
    + rewrite HN, HD.
      destruct (_ =? 0); reflexivity.
Qed.

End CurveEdges.

Lemma ROC_untrained_witness :
  fst (ROC X2 T2 fresh_world) = Raise TypeError.
Proof.
  rewrite (ROC_untrained X2 T2 fresh_world eq_refl); [reflexivity |].
  discriminate.
Defined.

Lemma ROC_unfit_test_set_witness :
  ROC X2 [0; 1; 1] trained_world = (Raise IndexError, trained_world)
  /\ ROC X2 [1; 1] trained_world = (Raise ZeroDivisionError, trained_world).
Proof.
  destruct (ROC_unfit_test_set X2 [0%R; 0%R] [0; 1; 1] trained_world
              eq_refl eq_refl eq_refl eq_refl) as [H1 _].
  destruct (ROC_unfit_test_set X2 [0%R; 0%R] [1; 1] trained_world
              eq_refl eq_refl eq_refl eq_refl) as [_ H2].
  split; [apply H1; cbn; lia | apply H2; [cbn; lia | left; reflexivity]].
Defined.

(** ** [fit] and what follows it *)

Section FitProps.

Context {F : Type} {FF : Float64 F}.

Lemma shaped_initial_state (s : world F) (X : matrix F) (e0 : F) :
  shaped X (initial_state s X e0).
Proof.
  split; cbn [initial_state cur_w y_prob].
  - unfold initial_w. rewrite !length_map, length_seq. reflexivity.
  - apply length_probabilities.
Qed.

Lemma passes_shaped (m : model F) (X : matrix F) (Y : list Z)
  (st st' : lstate F) :
  passes m X Y st st' -> shaped X st -> shaped X st'.
Proof.
  induction 1 as [st | st e_new st' HC He HP IH]; intros HS; [exact HS |].
  apply IH, shaped_next_state.
Qed.

Lemma first_probabilities (s : world F) (X : matrix F) :
  wf_matrix X = true ->
  sigmoid (map (row_dot (initial_w s X)) (rows (augment X)))
  = probabilities X (initial_w s X).
Proof.
  intros HW.
  assert (HL : length (initial_w s X) = S (ncols X))
    by apply (shaped_initial_state s X (of_Z 0)).
  destruct (sigmoid_dot_augment X (initial_w s X) HW HL) as [Hd Hp].
  rewrite <- Hp. f_equal. unfold dot in Hd. cbn [augment ncols] in Hd.
  rewrite (Nat_eqb_same (eq_sym HL)) in Hd. injection Hd as Hd. exact Hd.
Qed.

(** X7: after a call of [fit] that returns, the instance answers.
    [get_coef] returns the stored weights, one for the intercept and one
    for each column of the training matrix, and [predict] returns one
    label for each row of any matrix of the training width, the labels
    of those weights. *)
Theorem fit_then_infer (fuel : nat) (X : matrix F) (Y : list Z)
  (X' : matrix F) (p : F) (s : world F) :
  wf_matrix X = true ->
  length Y = nrows X ->
  (Z.to_nat (max_iter (self s) - 1) <= fuel)%nat ->
  wf_matrix X' = true ->
  ncols X' = ncols X ->
  exists s' wv,
    fit fuel X Y s = (Ok tt, s')
    /\ length wv = S (ncols X)
    /\ get_coef s' = (Ok (Some wv), s')
    /\ predict X' p s' = (Ok (Some (labels_at X' wv p)), s')
    /\ length (labels_at X' wv p) = nrows X'.
Proof.
  intros HW HY HF HW' HC.
  destruct (fit_run fuel X Y s HW HY HF) as (e0 & st' & evs & _ & HP & _ & HR).
  pose proof (passes_shaped _ _ _ _ _ HP (shaped_initial_state s X e0))
    as [HL _].
  eexists. exists (cur_w st'). split; [exact HR |].
  split; [exact HL |]. split; [reflexivity |].
  split; [| apply length_labels_at].
  apply predict_run; try reflexivity; [exact HW' | congruence].
Qed.

(** X8: when the loop condition is false on entry, because
    [max_iter <= 1] or because 1 is not greater than [error_diff], [fit]
    makes no pass at all: it returns with [trained] set and stores the
    weights it drew, [0.01] times the random deviates, whatever the
    data. *)
Theorem fit_without_pass (fuel : nat) (X : matrix F) (Y : list Z)
  (s : world F) :
  wf_matrix X = true ->
  length Y = nrows X ->
  max_iter (self s) <= 1 \/ fgtb (of_Z 1) (error_diff (self s)) = false ->
  exists s',
    fit fuel X Y s = (Ok tt, s')
    /\ trained (self s') = true
    /\ w (self s')
       = Some (map (fmul (flit (1 # 100)))
                   (map (rng s) (seq (rng_pos s) (S (ncols X))))).
Proof.
  intros HW HY HC. rewrite fit_prefix. cbv zeta.
  rewrite (first_probabilities s X HW).
  destruct (cross_entropy_returns Y (probabilities X (initial_w s X)))
    as [e0 He]; [rewrite length_probabilities; congruence |].
  rewrite He.
  set (s2 := World _ _ _ _).
  destruct (fit_rest_cases fuel X Y (initial_w s X)
              (probabilities X (initial_w s X)) e0 s2) as (s3 & HS & HR).
  rewrite fit_loop_unfold in HR.
  assert (HF : loop_cond (self s3)
                 (LState (initial_w s X) (probabilities X (initial_w s X))
                         (of_Z 1) e0 1) = false).
  { rewrite HS. unfold loop_cond. cbn.
    destruct HC as [HC | HC].
    - destruct (Z.ltb_spec 1 (max_iter (self s))); [lia | reflexivity].
    - rewrite HC. apply andb_false_r. }
  rewrite HF in HR. destruct HR as [evs HR].
  eexists. split; [exact HR |]. split; reflexivity.
Qed.

Lemma same_config_loop_cond (m1 m2 : model F) (st : lstate F) :
  same_config m1 m2 -> loop_cond m1 st = loop_cond m2 st.
Proof.
  intros (H1 & _ & H3). unfold loop_cond. rewrite H1, H3. reflexivity.
Qed.

Lemma passes_config (m1 m2 : model F) (X : matrix F) (Y : list Z)
  (st st' : lstate F) :
  same_config m1 m2 -> passes m1 X Y st st' -> passes m2 X Y st st'.
Proof.
  intros HC. induction 1 as [st | st e_new st' Hc He HP IH].
  - apply passes_done.
  - assert (HN : next_w m1 X Y st = next_w m2 X Y st).
    { unfold next_w. destruct HC as (_ & -> & _). reflexivity. }
    apply (passes_step m2 X Y st e_new).
    + rewrite <- (same_config_loop_cond m1 m2 st HC). exact Hc.
    + rewrite <- HN. exact He.
    + unfold next_state in *. rewrite <- HN. exact IH.
Qed.

Lemma passes_deterministic (m : model F) (X : matrix F) (Y : list Z)
  (st st1 : lstate F) :
  passes m X Y st st1 ->
  loop_cond m st1 = false ->
  forall st2,
    passes m X Y st st2 -> loop_cond m st2 = false -> st1 = st2.
Proof.
  induction 1 as [st | st e_new st1 Hc He HP IH]; intros H1 st2 H2 H3.
  - inversion H2 as [st0 E | st0 e' st0' Hc' He' HP']; [reflexivity |].
    congruence.
  - inversion H2 as [st0 E | st0 e' st0' Hc' He' HP' E1 E2].
    + subst. congruence.
    + rewrite He in He'. injection He' as <-.
      apply IH; assumption.
Qed.

(** X9: the weights [fit] stores depend on the data, on [max_iter], [a]
    and [error_diff] and on the random deviates it draws, and on nothing
    else: two instances that agree on these end with the same weights,
    whatever their [show] flags and whatever weights and [trained] flag
    an earlier call had left in them. *)
Theorem fit_result_depends_on (fuel : nat) (X : matrix F) (Y : list Z)
  (s1 s2 : world F) :
  wf_matrix X = true ->
  length Y = nrows X ->
  (Z.to_nat (max_iter (self s1) - 1) <= fuel)%nat ->
  same_config (self s1) (self s2) ->
  (forall k, rng s1 k = rng s2 k) ->
  rng_pos s1 = rng_pos s2 ->
  exists wv s1' s2',
    fit fuel X Y s1 = (Ok tt, s1')
    /\ fit fuel X Y s2 = (Ok tt, s2')
    /\ w (self s1') = Some wv
    /\ w (self s2') = Some wv
    /\ trained (self s1') = true
    /\ trained (self s2') = true.
Proof.
  intros HW HY HF HC Hr Hp.
  assert (HF2 : (Z.to_nat (max_iter (self s2) - 1) <= fuel)%nat)
    by (destruct HC as (<- & _); exact HF).
  destruct (fit_run fuel X Y s1 HW HY HF)
    as (e1 & st1 & evs1 & He1 & HP1 & HC1 & HR1).
  destruct (fit_run fuel X Y s2 HW HY HF2)
    as (e2 & st2 & evs2 & He2 & HP2 & HC2 & HR2).
  assert (HI : initial_w s1 X = initial_w s2 X).
  { unfold initial_w. rewrite Hp. f_equal. apply map_ext. exact Hr. }
  assert (HE : e1 = e2) by (rewrite HI in He1; congruence).
  assert (HS : initial_state s1 X e1 = initial_state s2 X e2)
    by (unfold initial_state; rewrite HI, HE; reflexivity).
  set (m1 := set_shape (nrows X) (ncols X) (self s1)) in *.
  set (m2 := set_shape (nrows X) (ncols X) (self s2)) in *.
  assert (HC' : same_config m2 m1)
    by (destruct HC as (H1 & H2 & H3); repeat split; cbn; congruence).
  rewrite <- HS in HP2.
  apply (passes_config m2 m1 _ _ _ _ HC') in HP2.
  rewrite (same_config_loop_cond m2 m1 st2 HC') in HC2.
  pose proof (passes_deterministic _ _ _ _ _ HP1 HC1 st2 HP2 HC2) as <-.
  exists (cur_w st1). eexists. eexists.
  split; [exact HR1 |]. split; [exact HR2 |]. repeat split.
Qed.

Lemma body_events_quiet (m : model F) (st : lstate F) (e_new : F) :
  show m = false -> body_events m st e_new = [].
Proof.
  intros H. unfold body_events. rewrite H, andb_false_r. reflexivity.
Qed.

Lemma fit_loop_quiet (X : matrix F) (Y : list Z) :
  wf_matrix X = true ->
  length Y = nrows X ->
  forall (fuel : nat) (st : lstate F) (s : world F),
    show (self s) = false ->
    shaped X st ->
    (Z.to_nat (max_iter (self s) - iterations st) <= fuel)%nat ->
    exists st',
      fit_loop fuel (augment X) Y st s = (Ok st', s)
      /\ passes (self s) X Y st st'
      /\ loop_cond (self s) st' = false.
Proof.
  intros HW HY. induction fuel as [| fuel IH]; intros st s Hq HS HF;
    rewrite fit_loop_unfold; destruct (loop_cond (self s) st) eqn:HC.
  - apply loop_cond_bound in HC. lia.
  - exists st. split; [reflexivity |]. split; [apply passes_done | exact HC].
  - destruct (fit_body_run X Y st s HW HY HS) as (e_new & He & Hb).
    rewrite (body_events_quiet _ _ _ Hq), world_eta in Hb.
    rewrite (bind_Ok _ _ _ _ _ Hb).
    pose proof (loop_cond_bound _ _ HC) as HB.
    destruct (IH (next_state (self s) X Y st e_new) s Hq)
      as (st' & HL & HP & HE);
      [apply shaped_next_state | cbn; lia |].
    exists st'. split; [exact HL |]. split; [| exact HE].
    eapply passes_step; eauto.
  - exists st. split; [reflexivity |]. split; [apply passes_done | exact HC].
Qed.

(** X10: with [show] off, [fit] prints nothing before or inside its
    loop.  After the loop it prints "Gradient decent reached max
    iterations." exactly when the counter is still below [max_iter],
    which is when the loop was left because [e] was not greater than
    [error_diff]; when the cap was reached it prints nothing. *)
Theorem fit_quiet_output (fuel : nat) (X : matrix F) (Y : list Z)
  (s : world F) :
  wf_matrix X = true ->
  length Y = nrows X ->
  (Z.to_nat (max_iter (self s) - 1) <= fuel)%nat ->
  show (self s) = false ->
  let m := set_shape (nrows X) (ncols X) (self s) in
  exists s' e0 st',
    fit fuel X Y s = (Ok tt, s')
    /\ passes m X Y (initial_state s X e0) st'
    /\ loop_cond m st' = false
    /\ w (self s') = Some (cur_w st')
    /\ (iterations st' < max_iter (self s) ->
        fgtb (e st') (error_diff (self s)) = false
        /\ out s'
           = out s ++ [Print "Gradient decent reached max iterations."])
    /\ (max_iter (self s) <= iterations st' -> out s' = out s).
Proof.
  intros HW HY HF Hq m. rewrite fit_prefix. cbv zeta.
  rewrite (first_probabilities s X HW).
  destruct (cross_entropy_returns Y (probabilities X (initial_w s X)))
    as [e0 He]; [rewrite length_probabilities; congruence |].
  rewrite He. fold m.
  set (s2 := World m _ _ _).
  destruct (fit_loop_quiet X Y HW HY fuel (initial_state s X e0) s2)
    as (st' & HL & HP & HC);
    [exact Hq | apply shaped_initial_state | cbn; exact HF |].
  cbn [self s2] in HP, HC.
  unfold fit_rest, bind at 1, get_self at 1. cbn [self s2].
  replace (show m) with false by (symmetry; exact Hq).
  cbn [when]. unfold bind at 1, ret at 1.
  fold (initial_state s X e0). rewrite (bind_Ok _ _ _ _ _ HL). cbv beta.
  unfold bind at 1, get_self at 1. cbn [self s2].
  replace (show m) with false by (symmetry; exact Hq).
  cbn [andb].
  exists (World (set_trained (cur_w st') m)
                (out s ++ quiet_events m st') (rng s)
                (rng_pos s + S (ncols X))), e0, st'.
  unfold quiet_events. change (max_iter m) with (max_iter (self s)).
  split.
  { unfold when, bind, emit, ret, get_self, put_self.
    destruct (iterations st' <? max_iter (self s));
      cbn [self out rng rng_pos s2]; rewrite ?app_nil_r; reflexivity. }
  split; [exact HP |]. split; [exact HC |]. split; [reflexivity |].
  cbn [out]. split; intros H.
  - destruct (Z.ltb_spec (iterations st') (max_iter (self s))) as [_ | H'];
      [| lia].
    split; [| reflexivity].
    unfold loop_cond in HC. change (max_iter m) with (max_iter (self s)) in HC.
    change (error_diff m) with (error_diff (self s)) in HC.
    apply andb_false_iff in HC. destruct HC as [HC | HC]; [lia | exact HC].
  - destruct (Z.ltb_spec (iterations st') (max_iter (self s)));
      [lia | apply app_nil_r].
Qed.

End FitProps.

Lemma fit_then_infer_witness :
  exists s' wv,
    fit 999 X2 T2 fresh_world = (Ok tt, s')
    /\ length wv = 2%nat
    /\ predict X5 (flit (1 # 2)) s' = (Ok (Some (labels_at X5 wv (flit (1 # 2)))), s').
Proof.
  destruct (fit_then_infer 999 X2 T2 X5 (flit (1 # 2)) fresh_world
              eq_refl eq_refl) as (s' & wv & H1 & H2 & _ & H3 & _);
    [cbn; lia | reflexivity | reflexivity |].
  exists s', wv. split; [exact H1 |]. split; [exact H2 | exact H3].
Defined.

Lemma fit_without_pass_witness :
  exists s',
    fit 0 X2 T2 capped_world = (Ok tt, s')
    /\ w (self s') = Some (initial_w capped_world X2).
Proof.
  destruct (fit_without_pass 0 X2 T2 capped_world eq_refl eq_refl)
    as (s' & H1 & _ & H2); [left; cbn; lia |].
  exists s'. split; [exact H1 | exact H2].
Defined.

Lemma fit_result_depends_on_witness :
  exists wv,
    w (self (snd (fit 999 X2 T2 fresh_world))) = Some wv
    /\ w (self (snd (fit 999 X2 T2
                        (World (self trained_world) [] (fun _ => 0%R) 0))))
       = Some wv.
Proof.
  destruct (fit_result_depends_on 999 X2 T2 fresh_world
              (World (self trained_world) [] (fun _ => 0%R) 0)
              eq_refl eq_refl)
    as (wv & s1' & s2' & H1 & H2 & H3 & H4 & _);
    [cbn; lia | repeat split | reflexivity | reflexivity |].
  exists wv. rewrite H1, H2. split; [exact H3 | exact H4].
Defined.

Lemma fit_quiet_output_witness :
  exists s', fit 999 X2 T2 fresh_world = (Ok tt, s')
             /\ (out s' = [] \/ exists x, out s' = [x]).
Proof.
  destruct (fit_quiet_output 999 X2 T2 fresh_world eq_refl eq_refl)
    as (s' & e0 & st' & H1 & _ & _ & _ & H2 & H3);
    [cbn; lia | reflexivity |].
  exists s'. split; [exact H1 |].
  destruct (Z_lt_le_dec (iterations st') (max_iter (self fresh_world)))
    as [H | H].
  - right. destruct (H2 H) as [_ E]. eexists. exact E.
  - left. exact (H3 H).
Defined.

(** ** In real arithmetic *)

Section RealArithmetic.

Local Open Scope R_scope.

Lemma threshold_mono (p q y : R) :
  p <= q -> (threshold q y <= threshold p y)%Z.
Proof.
  intros H. unfold threshold. cbn [fltb R_Float64]. unfold Rltb.
  destruct (Rlt_dec y q), (Rlt_dec y p); try lia. lra.
Qed.

(** X14: over the reals, raising the threshold can only turn labels
    from 1 to 0: for [p <= q] every label [predict] gives at [q] is at
    most the label it gives at [p] for the same row. *)
Theorem predict_monotone (X : matrix R) (p q : R) (wv : list R)
  (s : world R) :
  trained (self s) = true ->
  w (self s) = Some wv ->
  wf_matrix X = true ->
  length wv = S (ncols X) ->
  p <= q ->
  exists lp lq,
    predict X p s = (Ok (Some lp), s)
    /\ predict X q s = (Ok (Some lq), s)
    /\ Forall2 Z.le lq lp.
Proof.
  intros Ht Hw HW HL Hpq.
  exists (labels_at X wv p), (labels_at X wv q).
  split; [apply predict_run; assumption |].
  split; [apply predict_run; assumption |].
  unfold labels_at. induction (probabilities X wv) as [| y l IH];
    cbn [map]; constructor; [apply threshold_mono; exact Hpq | exact IH].
Qed.

Lemma predict_monotone_witness :
  exists lp lq,
    predict X2 (1 / 4) trained_world = (Ok (Some lp), trained_world)
    /\ predict X2 (3 / 4) trained_world = (Ok (Some lq), trained_world)
    /\ Forall2 Z.le lq lp.
Proof.
  apply (predict_monotone X2 (1 / 4) (3 / 4) [0; 0] trained_world
           eq_refl eq_refl eq_refl eq_refl).
  lra.
Defined.

End RealArithmetic.

(** ** The curve in real arithmetic *)

Section RealCurve.

Local Open Scope R_scope.

Lemma count_if_mono (f g : Z -> Z -> bool) (T : list Z) :
  forall l1 l2 : list Z,
    Forall2 (fun y1 y2 => forall t, f t y1 = true -> g t y2 = true) l1 l2 ->
    (count_if f T l1 <= count_if g T l2)%Z.
Proof.
  unfold count_if. induction T as [| t T IH]; intros l1 l2 H; [cbn; lia |].
  destruct H as [| y1 y2 l1 l2 Hy Hl]; [cbn; lia |].
  cbn [combine filter fst snd]. specialize (IH l1 l2 Hl).
  destruct (f t y1) eqn:E.
  - rewrite (Hy t E). cbn [length]. lia.
  - destruct (g t y2); cbn [length]; lia.
Qed.

Lemma labels_at_Forall2 (P : Z -> Z -> Prop) (X : matrix R) (wv : list R)
  (p q : R) :
  (forall y, P (threshold p y) (threshold q y)) ->
  Forall2 P (labels_at X wv p) (labels_at X wv q).
Proof.
  intros H. unfold labels_at.
  induction (probabilities X wv) as [| y l IH]; cbn [map]; constructor; auto.
Qed.

Lemma threshold_cases (p y : R) : threshold p y = 0%Z \/ threshold p y = 1%Z.
Proof. unfold threshold. destruct (fltb y p); auto. Qed.

(** The counts as the threshold rises. *)
Lemma TP_of_mono (X : matrix R) (wv : list R) (T : list Z) (p q : R) :
  p <= q ->
  (TP_of T (labels_at X wv p) <= TP_of T (labels_at X wv q))%Z.
Proof.
  intros H. apply count_if_mono. apply labels_at_Forall2. intros y t Hf.
  pose proof (threshold_mono p q y H).
  destruct (threshold_cases p y) as [E | E], (threshold_cases q y) as [E' | E'];
    rewrite E in *; rewrite E' in *; first [exact Hf | lia].
Qed.

Lemma TN_of_mono (X : matrix R) (wv : list R) (T : list Z) (p q : R) :
  p <= q ->
  (TN_of T (labels_at X wv q) <= TN_of T (labels_at X wv p))%Z.
Proof.
  intros H. apply count_if_mono. apply labels_at_Forall2. intros y t Hf.
  pose proof (threshold_mono p q y H).
  destruct (threshold_cases p y) as [E | E], (threshold_cases q y) as [E' | E'];
    rewrite E in *; rewrite E' in *; first [exact Hf | lia].
Qed.

Section OnTestSet.

Variables (X : matrix R) (wv : list R) (T : list Z).
Hypothesis HT : (length T <= nrows X)%nat.
Hypothesis Hpos : existsb (fun t => (t =? 0)%Z) T = true.
Hypothesis Hneg : existsb (fun t => negb (t =? 0)%Z) T = true.


Lemma HP_pos : 0 < IZR (positives T).
Proof.
  apply IZR_lt. pose proof (existsb_filter_pos _ _ Hpos). unfold positives. lia.
Qed.

Lemma HN_pos : 0 < IZR (negatives T).
Proof.
  apply IZR_lt. pose proof (existsb_filter_pos _ _ Hneg). unfold negatives. lia.
Qed.

Lemma labels_long (p : R) : (length T <= length (labels_at X wv p))%nat.
Proof. rewrite length_labels_at. exact HT. Qed.

Lemma recall_at_eq (p : R) :
  recall_at X wv T p = IZR (TP_of T (labels_at X wv p)) / IZR (positives T).
Proof.
  unfold recall_at. cbv zeta. rewrite (positives_total _ _ (labels_long p)).
  reflexivity.
Qed.

Lemma specif_minus_at_eq (p : R) :
  specif_minus_at X wv T p
  = 1 - IZR (TN_of T (labels_at X wv p)) / IZR (negatives T).
Proof.
  unfold specif_minus_at. cbv zeta.
  rewrite (negatives_total _ _ (labels_long p)). reflexivity.
Qed.

Lemma count_nonneg (f : Z -> Z -> bool) (Yl : list Z) :
  (0 <= count_if f T Yl)%Z.
Proof. unfold count_if. lia. Qed.

Lemma div_le_div (x y d : R) : 0 < d -> x <= y -> x / d <= y / d.
Proof.
  intros Hd H. unfold Rdiv. apply Rmult_le_compat_r; [| exact H].
  apply Rlt_le, Rinv_0_lt_compat, Hd.
Qed.

Lemma div_unit (x d : R) : 0 < d -> 0 <= x <= d -> 0 <= x / d <= 1.
Proof.
  intros Hd [H0 H1]. split.
  - apply Rmult_le_pos; [exact H0 |]. apply Rlt_le, Rinv_0_lt_compat, Hd.
  - replace 1 with (d / d) by (field; lra). apply div_le_div; assumption.
Qed.

Lemma recall_at_unit (p : R) : 0 <= recall_at X wv T p <= 1.
Proof.
  rewrite recall_at_eq. apply div_unit; [apply HP_pos |].
  pose proof (positives_total _ _ (labels_long p)) as H. fold (positives T) in H.
  pose proof (count_nonneg (fun t y => (t =? 0)%Z && (y =? 0)%Z)
                           (labels_at X wv p)) as H1.
  pose proof (count_nonneg (fun t y => (t =? 0)%Z && negb (y =? 0)%Z)
                           (labels_at X wv p)) as H2.
  fold (TP_of T (labels_at X wv p)) in H1.
  fold (FN_of T (labels_at X wv p)) in H2.
  split; apply IZR_le; lia.
Qed.

Lemma specif_minus_at_unit (p : R) : 0 <= specif_minus_at X wv T p <= 1.
Proof.
  rewrite specif_minus_at_eq.
  assert (H : 0 <= IZR (TN_of T (labels_at X wv p)) / IZR (negatives T) <= 1).
  { apply div_unit; [apply HN_pos |].
    pose proof (negatives_total _ _ (labels_long p)) as H. fold (negatives T) in H.
    pose proof (count_nonneg (fun t y => negb (t =? 0)%Z && (y =? 1)%Z)
                             (labels_at X wv p)) as H1.
    pose proof (count_nonneg (fun t y => negb (t =? 0)%Z && negb (y =? 1)%Z)
                             (labels_at X wv p)) as H2.
    fold (TN_of T (labels_at X wv p)) in H1.
    fold (FP_of T (labels_at X wv p)) in H2.
    split; apply IZR_le; lia. }
  lra.
Qed.

Lemma recall_at_mono (p q : R) :
  p <= q -> recall_at X wv T p <= recall_at X wv T q.
Proof.
  intros H. rewrite !recall_at_eq. apply div_le_div; [apply HP_pos |].
  apply IZR_le, TP_of_mono, H.
Qed.

Lemma specif_minus_at_mono (p q : R) :
  p <= q -> specif_minus_at X wv T p <= specif_minus_at X wv T q.
Proof.
  intros H. rewrite !specif_minus_at_eq.
  assert (IZR (TN_of T (labels_at X wv q)) / IZR (negatives T)
          <= IZR (TN_of T (labels_at X wv p)) / IZR (negatives T)).
  { apply div_le_div; [apply HN_pos |]. apply IZR_le, TN_of_mono, H. }
  lra.
Qed.

End OnTestSet.


Lemma sorted_of_nth (l : list R) :
  (forall i, (S i < length l)%nat -> nth i l 0 <= nth (S i) l 0) ->
  Sorted Rle l.
Proof.
  induction l as [| x l IH]; intros H; [constructor |].
  constructor.
  - apply IH. intros i Hi. apply (H (S i)). cbn [length]. lia.
  - destruct l as [| y l]; constructor.
    apply (H 0%nat). cbn [length]. lia.
Qed.

Lemma thresholds_sorted :
  Sorted Rle (linspace (F := R) (of_Z 0) (of_Z 1) divisions).
Proof.
  apply sorted_of_nth. intros i Hi.
  rewrite length_linspace in Hi by (unfold divisions; lia).
  unfold divisions in Hi.
  rewrite !linspace_thresholds by lia. rewrite S_INR. lra.
Qed.

Lemma sorted_map_mono (f : R -> R) (l : list R) :
  (forall x y, x <= y -> f x <= f y) ->
  Sorted Rle l -> Sorted Rle (map f l).
Proof.
  intros Hf. induction 1 as [| x l HS IH HR]; cbn [map]; constructor.
  - exact IH.
  - destruct HR as [| y l Hxy]; cbn [map]; constructor. apply Hf, Hxy.
Qed.

Lemma combine_map {A} (f g : A -> R) (l : list A) :
  combine (map f l) (map g l) = map (fun x => (f x, g x)) l.
Proof.
  induction l as [| x l IH]; [reflexivity |]. cbn [map combine].
  rewrite IH. reflexivity.
Qed.

(** The trapezoid sum of a rising curve inside the unit square. *)
Lemma trapezoid_map_bounds (fx fy : R -> R) :
  (forall x y, x <= y -> fx x <= fx y) ->
  (forall x, 0 <= fx x <= 1) ->
  (forall x, 0 <= fy x <= 1) ->
  forall (ps : list R) (p0 acc : R),
    Sorted Rle (p0 :: ps) ->
    acc <= trapezoid (map (fun p => (fx p, fy p)) (p0 :: ps)) acc
        <= acc + (1 - fx p0).
Proof.
  intros Hmono Hx Hy. induction ps as [| p1 ps IH]; intros p0 acc HS.
  - cbn [map trapezoid]. pose proof (Hx p0). lra.
  - apply Sorted_inv in HS. destruct HS as [HS HR].
    apply HdRel_inv in HR.
    change (trapezoid (map (fun p => (fx p, fy p)) (p0 :: p1 :: ps)) acc)
      with (trapezoid (map (fun p => (fx p, fy p)) (p1 :: ps))
              (acc + (fy p0 + fy p1) * (fx p1 - fx p0) * Q2R (1 # 2))).
    specialize (IH p1 (acc + (fy p0 + fy p1) * (fx p1 - fx p0) * Q2R (1 # 2))
                   HS).
    pose proof (Hmono p0 p1 HR) as Hd.
    pose proof (Hy p0) as H0. pose proof (Hy p1) as H1.
    assert (HQ : Q2R (1 # 2) = / 2) by (unfold Q2R; cbn [Qnum Qden]; lra).
    rewrite HQ in *.
    assert (0 <= (fy p0 + fy p1) * (fx p1 - fx p0) * / 2 <= fx p1 - fx p0)
      by nra.
    lra.
Qed.

(** X16: over the reals both sequences [ROC] plots never decrease along
    the sweep, every point lies in the unit square, and the area it
    reports lies between 0 and 1. *)
Theorem ROC_auc_bounds (X : matrix R) (wv : list R) (T : list Z)
  (s : world R) :
  trained (self s) = true ->
  w (self s) = Some wv ->
  wf_matrix X = true ->
  length wv = S (ncols X) ->
  (length T <= nrows X)%nat ->
  existsb (fun t => (t =? 0)%Z) T = true ->
  existsb (fun t => negb (t =? 0)%Z) T = true ->
  exists xs ys auc,
    ROC X T s
    = (Ok None,
       World (self s) (out s ++ roc_events xs ys auc) (rng s) (rng_pos s))
    /\ Sorted Rle xs /\ Sorted Rle ys
    /\ Forall (fun x => 0 <= x <= 1) xs
    /\ Forall (fun y => 0 <= y <= 1) ys
    /\ 0 <= auc <= 1.
Proof.
  intros Ht Hw HW HL HT Hp Hn.
  pose proof (ROC_run X wv T s Ht Hw HW HL HT Hp Hn) as HR. cbv zeta in HR.
  set (ps := linspace (F := R) (of_Z 0) (of_Z 1) divisions) in *.
  eexists. eexists. eexists. split; [exact HR |].
  pose proof thresholds_sorted as HS. fold ps in HS.
  split; [apply sorted_map_mono;
          [apply (specif_minus_at_mono X wv T HT Hn) | exact HS] |].
  split; [apply sorted_map_mono;
          [apply (recall_at_mono X wv T HT Hp) | exact HS] |].
  split; [apply Forall_forall; intros x Hx; apply in_map_iff in Hx;
          destruct Hx as (p & <- & _);
          apply (specif_minus_at_unit X wv T HT Hn) |].
  split; [apply Forall_forall; intros x Hx; apply in_map_iff in Hx;
          destruct Hx as (p & <- & _);
          apply (recall_at_unit X wv T HT Hp) |].
  rewrite combine_map.
  destruct (linspace_head (F := R) (of_Z 0) (of_Z 1) divisions)
    as (p0 & ps' & E).
  fold ps in E. rewrite E in *.
  pose proof (trapezoid_map_bounds
                (specif_minus_at X wv T) (recall_at X wv T)
                (specif_minus_at_mono X wv T HT Hn)
                (specif_minus_at_unit X wv T HT Hn)
                (recall_at_unit X wv T HT Hp) ps' p0 0 HS) as HB.
  pose proof (specif_minus_at_unit X wv T HT Hn p0) as H0.
  cbn [of_Z R_Float64]. lra.
Qed.

Lemma ROC_auc_bounds_witness :
  exists xs ys auc,
    out (snd (ROC X2 T2 trained_world)) = roc_events xs ys auc
    /\ 0 <= auc <= 1.
Proof.
  destruct (ROC_auc_bounds X2 [0; 0] T2 trained_world
              eq_refl eq_refl eq_refl eq_refl (le_n 2) eq_refl eq_refl)
    as (xs & ys & auc & H & _ & _ & _ & _ & HA).
  exists xs, ys, auc. rewrite H. split; [reflexivity | exact HA].
Defined.

End RealCurve.

(** ** Training, then the curve *)

(** X17: the sequence of the example driver works on data of agreeing
    shapes.  After a call of [fit] that returns, [ROC] on any test
    matrix of the training width, with labels of both classes and not
    more labels than rows, returns [None] after handing two sequences of
    100 entries to the plot; it leaves the fitted instance as it is. *)
Theorem fit_then_ROC {F : Type} {FF : Float64 F} (fuel : nat)
  (X : matrix F) (Y : list Z) (X' : matrix F) (T' : list Z) (s : world F) :
  wf_matrix X = true ->
  length Y = nrows X ->
  (Z.to_nat (max_iter (self s) - 1) <= fuel)%nat ->
  wf_matrix X' = true ->
  ncols X' = ncols X ->
  (length T' <= nrows X')%nat ->
  existsb (fun t => t =? 0) T' = true ->
  existsb (fun t => negb (t =? 0)) T' = true ->
  exists s' xs ys auc,
    fit fuel X Y s = (Ok tt, s')
    /\ ROC X' T' s'
       = (Ok None,
          World (self s') (out s' ++ roc_events xs ys auc) (rng s')
                (rng_pos s'))
    /\ length xs = 100%nat
    /\ length ys = 100%nat.
Proof.
  intros HW HY HF HW' HC HT Hp Hn.
  destruct (fit_run fuel X Y s HW HY HF) as (e0 & st' & evs & _ & HP & _ & HR).
  pose proof (passes_shaped _ _ _ _ _ HP (shaped_initial_state s X e0))
    as [HL _].
  eexists. eexists. eexists. eexists. split; [exact HR |].
  split.
  - apply (ROC_run X' (cur_w st')); try assumption; try reflexivity.
    congruence.
  - rewrite !length_map.
    split; apply length_linspace; unfold divisions; lia.
Qed.

Lemma fit_then_ROC_witness :
  exists s', fit 999 X2 T2 fresh_world = (Ok tt, s')
             /\ fst (ROC X2 T2 s') = Ok None.
Proof.
  destruct (fit_then_ROC 999 X2 T2 X2 T2 fresh_world eq_refl eq_refl)
    as (s' & xs & ys & auc & H1 & H2 & _);
    [cbn; lia | reflexivity | reflexivity | apply le_n
    | reflexivity | reflexivity |].
  exists s'. split; [exact H1 | rewrite H2; reflexivity].
Defined.
